(** * Log analysis notebooks: field extraction and severity classification

    A shallow embedding of the two log-processing functions of
    [Epoch_Time_Converter_with_GUI.ipynb]:

    - [analyze_logs]   (the "Log Analysis Tool" notebook), which counts
      addresses, request verbs and status codes found by [re.findall];
    - [parse_log_file] (the log-parsing notebook), which sorts the lines
      matched by the article's regular expression into two lists.

    Text is a list of characters with code points 0..255 (type [ascii]);
    on that range the character classes below are the ones Python's [re]
    and [str.strip] use for [str] objects. *)

From Stdlib Require Import Ascii String Bool Arith Lia List.
Import ListNotations.

Local Open Scope list_scope.

(** ** Text *)

Definition text := list ascii.

(** A string literal as text. *)
Definition str (s : string) : text := list_ascii_of_string s.

(** The double-quote character. *)
Definition dq : ascii := "034".

Definition code (c : ascii) : nat := nat_of_ascii c.

Definition between (lo hi n : nat) : bool := (lo <=? n) && (n <=? hi).

(** [\d] on a [str] pattern: the decimal digits. *)
Definition is_digit (c : ascii) : bool := between 48 57 (code c).

(** [\s], and what [str.strip()] removes: tab to carriage return, the
    four separators 28..31, space, NEL and the no-break space. *)
Definition is_space (c : ascii) : bool :=
  let n := code c in
  between 9 13 n || between 28 32 n || (n =? 133) || (n =? 160).

(** [\w]: alphanumeric characters and the underscore.  Above 127 these
    are the two ordinal indicators, the micro sign, the superscript
    digits, the vulgar fractions and the accented letters. *)
Definition is_word (c : ascii) : bool :=
  let n := code c in
  between 48 57 n || between 65 90 n || between 97 122 n || (n =? 95)
  || (n =? 170) || (n =? 178) || (n =? 179) || (n =? 181)
  || between 185 186 n || between 188 190 n
  || between 192 214 n || between 216 246 n || between 248 255 n.

Definition text_eqb (a b : text) : bool :=
  if list_eq_dec ascii_dec a b then true else false.

(** [is_prefix p s]: [s] starts with [p]. *)
Fixpoint is_prefix (p s : text) : bool :=
  match p, s with
  | [], _ => true
  | a :: p', b :: s' => Ascii.eqb a b && is_prefix p' s'
  | _ :: _, [] => false
  end.

(** [contains p s]: [p] occurs somewhere in [s]. *)
Fixpoint contains (p s : text) : bool :=
  is_prefix p s || match s with [] => false | _ :: s' => contains p s' end.

(** ** Regular expressions

    The fragment of Python's pattern syntax the notebook uses. *)

Inductive cset : Type :=
| CChar (c : ascii)            (* a character listed in a class *)
| CRange (lo hi : ascii)       (* [lo-hi] *)
| CWord                        (* \w *)
| CDigit                       (* \d *)
| CSpace.                      (* \s *)

Inductive regex : Type :=
| Eps
| Lit (c : ascii)              (* a literal character *)
| Class (cs : list cset)       (* [...], or a lone \w \d \s *)
| Seq (r1 r2 : regex)
| Alt (r1 r2 : regex)          (* r1|r2 *)
| Star (r : regex)             (* r*, greedy *)
| Repeat (lo hi : nat) (r : regex)   (* r{lo,hi}, greedy *)
| Group (i : nat) (r : regex)  (* the i-th capturing group *)
| WordB.                       (* \b *)

Definition cset_mem (c : ascii) (x : cset) : bool :=
  match x with
  | CChar a => Ascii.eqb a c
  | CRange lo hi => between (code lo) (code hi) (code c)
  | CWord => is_word c
  | CDigit => is_digit c
  | CSpace => is_space c
  end.

Definition class_mem (cs : list cset) (c : ascii) : bool :=
  existsb (cset_mem c) cs.

(** A literal string. *)
Fixpoint lit (w : text) : regex :=
  match w with
  | [] => Eps
  | [c] => Lit c
  | c :: w' => Seq (Lit c) (lit w')
  end.

Fixpoint seqs (rs : list regex) : regex :=
  match rs with
  | [] => Eps
  | [r] => r
  | r :: rs' => Seq r (seqs rs')
  end.

Fixpoint alts (r : regex) (rs : list regex) : regex :=
  match rs with
  | [] => r
  | r' :: rs' => Alt r (alts r' rs')
  end.

(** ** The backtracking matcher

    A matching state: the character before the current position (for
    [\b]), the text still to be read, and the groups captured so far
    (most recent first). *)

Record mstate : Type := MState {
  prev : option ascii;
  rest : text;
  caps : list (nat * text)
}.

Definition word_opt (o : option ascii) : bool :=
  match o with Some c => is_word c | None => false end.

(** [\b]: exactly one side of the position is a word character. *)
Definition at_boundary (st : mstate) : bool :=
  xorb (word_opt (prev st)) (word_opt (hd_error (rest st))).

(** The text consumed between two states of one match attempt. *)
Definition consumed (st st' : mstate) : text :=
  firstn (length (rest st) - length (rest st')) (rest st).

Definition set_group (i : nat) (w : text) (st : mstate) : mstate :=
  MState (prev st) (rest st) ((i, w) :: caps st).

Definition shorter (st' st : mstate) : bool :=
  length (rest st') <? length (rest st).

Definition orelse {A} (x : option A) (y : option A) : option A :=
  match x with Some _ => x | None => y end.

(** [bt r st k] runs [r] from [st] and hands every way of matching it,
    in the order Python tries them, to the continuation [k]; the first
    success wins.  Greedy repetition tries one more iteration before it
    tries to stop; an iteration of [*] that consumes nothing is cut. *)
Fixpoint bt {A} (r : regex) (st : mstate) (k : mstate -> option A) : option A :=
  match r with
  | Eps => k st
  | Lit c =>
      match rest st with
      | a :: s => if Ascii.eqb c a then k (MState (Some a) s (caps st)) else None
      | [] => None
      end
  | Class cs =>
      match rest st with
      | a :: s => if class_mem cs a then k (MState (Some a) s (caps st)) else None
      | [] => None
      end
  | Seq r1 r2 => bt r1 st (fun st1 => bt r2 st1 k)
  | Alt r1 r2 => orelse (bt r1 st k) (bt r2 st k)
  | Star r1 =>
      (fix loop (fuel : nat) (st : mstate) : option A :=
         match fuel with
         | 0 => k st
         | S fuel' =>
             orelse
               (bt r1 st (fun st1 => if shorter st1 st then loop fuel' st1 else None))
               (k st)
         end) (length (rest st)) st
  | Repeat lo hi r1 =>
      (fix rep (lo hi : nat) (st : mstate) : option A :=
         match hi with
         | 0 => if lo =? 0 then k st else None
         | S hi' =>
             orelse
               (bt r1 st (fun st1 => rep (pred lo) hi' st1))
               (if lo =? 0 then k st else None)
         end) lo hi st
  | Group i r1 => bt r1 st (fun st1 => k (set_group i (consumed st st1) st1))
  | WordB => if at_boundary st then k st else None
  end.

(** A match object: where the match starts and ends in the searched
    text, the matched text, and the captured groups. *)
Record rmatch : Type := RMatch {
  m_start : nat;
  m_text : text;
  m_caps : list (nat * text)
}.

(** [m.group(i)]: [None] when the group took no part in the match. *)
Fixpoint lookup_group (i : nat) (cs : list (nat * text)) : option text :=
  match cs with
  | [] => None
  | (j, w) :: cs' => if j =? i then Some w else lookup_group i cs'
  end.

Definition group (i : nat) (m : rmatch) : option text := lookup_group i (m_caps m).

(** [pattern.match] at one position. *)
Definition match_here (r : regex) (p : option ascii) (s : text) : option mstate :=
  bt r (MState p s []) (fun st => Some st).

(** [re.search]: the match at the leftmost position that has one. *)
Fixpoint search_from (r : regex) (pos : nat) (p : option ascii) (s : text) : option rmatch :=
  match match_here r p s with
  | Some st => Some (RMatch pos (firstn (length s - length (rest st)) s) (caps st))
  | None =>
      match s with
      | [] => None
      | c :: s' => search_from r (S pos) (Some c) s'
      end
  end.

Definition re_search (r : regex) (s : text) : option rmatch := search_from r 0 None s.

(** [re.finditer]: the matches found scanning left to right; after a
    match the scan resumes where the match ended ([skip] counts the
    characters of the last match still to be passed over; after an empty
    match the scan moves one character on; none of the notebook's
    patterns matches the empty string, see [extract_patterns_consume]). *)
Fixpoint finditer_from (r : regex) (pos : nat) (p : option ascii) (s : text)
    (skip : nat) : list rmatch :=
  match skip with
  | S n =>
      match s with
      | [] => []
      | c :: s' => finditer_from r (S pos) (Some c) s' n
      end
  | 0 =>
      match match_here r p s with
      | Some st =>
          let w := firstn (length s - length (rest st)) s in
          RMatch pos w (caps st) ::
            match s with
            | [] => []
            | c :: s' => finditer_from r (S pos) (Some c) s' (pred (length w))
            end
      | None =>
          match s with
          | [] => []
          | c :: s' => finditer_from r (S pos) (Some c) s' 0
          end
      end
  end.

Definition finditer (r : regex) (s : text) : list rmatch := finditer_from r 0 None s 0.

Fixpoint has_group (r : regex) : bool :=
  match r with
  | Group _ _ => true
  | Seq r1 r2 | Alt r1 r2 => has_group r1 || has_group r2
  | Star r1 | Repeat _ _ r1 => has_group r1
  | _ => false
  end.

(** [re.findall] for a pattern with at most one group: the group when
    there is one (empty when it took no part), else the whole match. *)
Definition findall_item (r : regex) (m : rmatch) : text :=
  if has_group r then match group 1 m with Some w => w | None => [] end
  else m_text m.

Definition findall (r : regex) (s : text) : list text :=
  map (findall_item r) (finditer r s).

(** ** [collections.Counter]

    A dict from value to count that keeps its keys in the order in which
    they were first inserted. *)

Definition counter := list (text * nat).

Fixpoint counter_get (k : text) (c : counter) : option nat :=
  match c with
  | [] => None
  | (k', n) :: c' => if text_eqb k' k then Some n else counter_get k c'
  end.

(** [c[k] = c.get(k, 0) + 1] *)
Fixpoint counter_incr (k : text) (c : counter) : counter :=
  match c with
  | [] => [(k, 1)]
  | (k', n) :: c' =>
      if text_eqb k' k then (k', S n) :: c' else (k', n) :: counter_incr k c'
  end.

(** [Counter(iterable)] *)
Definition Counter (l : list text) : counter :=
  fold_left (fun c k => counter_incr k c) l [].

(** ** [analyze_logs] *)

(** [\b(?:[0-9]{1,3}\.){3}[0-9]{1,3}\b] *)
Definition ip_pattern : regex :=
  seqs [ WordB;
         Repeat 3 3 (Seq (Repeat 1 3 (Class [CRange "0" "9"])) (Lit "."));
         Repeat 1 3 (Class [CRange "0" "9"]);
         WordB ].

(** [<dq>(GET|POST|PUT|DELETE)], where <dq> is the double quote *)
Definition request_pattern : regex :=
  Seq (Lit dq)
      (Group 1 (alts (lit (str "GET"))
                     [lit (str "POST"); lit (str "PUT"); lit (str "DELETE")])).

(** [\s(\d{3})\s] *)
Definition status_pattern : regex :=
  seqs [ Class [CSpace]; Group 1 (Repeat 3 3 (Class [CDigit])); Class [CSpace] ].

Record log_counts : Type := LogCounts {
  ip_count : counter;
  request_count : counter;
  status_count : counter
}.

(** The tables [analyze_logs] builds from [log_content] and then lists
    in [result_text], one ["value: count"] line per entry. *)
Definition analyze_logs (log_content : text) : log_counts :=
  let ips := findall ip_pattern log_content in
  let requests := findall request_pattern log_content in
  let statuses := findall status_pattern log_content in
  LogCounts (Counter ips) (Counter requests) (Counter statuses).

(** [log_text.get("1.0", tk.END)]: the widget's text and the newline Tk
    keeps at its end. *)
Definition LF : ascii := "010".
Definition CR : ascii := "013".

Definition log_text_get (widget : text) : text := widget ++ [LF].

(** ** [parse_log_file] *)

(** [\w*level=(warning|error)*[\w ]*[\=\<dq>\w \.]*[fF]ailed] *)
Definition regex_pattern_article : regex :=
  seqs [ Star (Class [CWord]);
         lit (str "level=");
         Star (Group 1 (Alt (lit (str "warning")) (lit (str "error"))));
         Star (Class [CWord; CChar " "]);
         Star (Class [CChar "="; CChar dq; CWord; CChar " "; CChar "."]);
         Class [CChar "f"; CChar "F"];
         lit (str "ailed") ].

Fixpoint lstrip (s : text) : text :=
  match s with
  | c :: s' => if is_space c then lstrip s' else s
  | [] => []
  end.

Definition rstrip (s : text) : text := rev (lstrip (rev s)).

(** [line.strip()] *)
Definition strip (s : text) : text := rstrip (lstrip s).

(** Text mode with the default [newline=None]: a carriage return, alone
    or before a line feed, reads as a line feed. *)
Fixpoint universal_newlines (s : text) : text :=
  match s with
  | [] => []
  | c :: s' =>
      if Ascii.eqb c CR then
        LF :: match s' with
              | c' :: s'' =>
                  if Ascii.eqb c' LF then universal_newlines s''
                  else universal_newlines s'
              | [] => []
              end
      else c :: universal_newlines s'
  end.

(** The lines a file object yields, each with its line feed (the last
    one may lack it); [cur] is the line being read. *)
Fixpoint readlines_from (cur : text) (s : text) : list text :=
  match s with
  | [] => match cur with [] => [] | _ => [cur] end
  | c :: s' =>
      if Ascii.eqb c LF then (cur ++ [c]) :: readlines_from [] s'
      else readlines_from (cur ++ [c]) s'
  end.

(** [for line in f] over a file whose text is [content]. *)
Definition file_lines (content : text) : list text :=
  readlines_from [] (universal_newlines content).

Definition buckets : Type := (list text * list text)%type.

(** One turn of the loop body on the raw line [raw]. *)
Definition classify_line (acc : buckets) (raw : text) : buckets :=
  let '(errors, warnings) := acc in
  let line := strip raw in
  match line with
  | [] => acc                                   (* if not line: continue *)
  | _ =>
      match re_search regex_pattern_article line with
      | Some result =>
          let level_type := group 1 result in
          match level_type with
          | Some lv =>
              if text_eqb lv (str "error") then (errors ++ [line], warnings)
              else if text_eqb lv (str "warning") then (errors, warnings ++ [line])
              else acc
          | None => acc
          end
      | None => acc
      end
  end.

(** [parse_log_file]: [None] stands for a path at which no file exists,
    [Some content] for a file that reads as [content]. *)
Definition parse_log_file (source : option text) : buckets :=
  match source with
  | None => ([], [])
  | Some content => fold_left classify_line (file_lines content) ([], [])
  end.

(** The classifier on a blob of text. *)
Definition classify (blob : text) : buckets := parse_log_file (Some blob).

(** The extractor on a blob of text. *)
Definition extract (blob : text) : log_counts := analyze_logs blob.

(** ** Vocabulary of the specification *)

(** The level a trimmed line is filed under: group 1 of the first match
    of the article's pattern, when there is one. *)
Definition level_type (line : text) : option text :=
  match re_search regex_pattern_article line with
  | Some result => group 1 result
  | None => None
  end.

Definition level_is (lv line : text) : bool :=
  match level_type line with
  | Some v => text_eqb v lv
  | None => false
  end.

Definition nonblank (line : text) : bool :=
  match line with [] => false | _ :: _ => true end.

(** The trimmed, non-blank lines of a blob, in input order. *)
Definition trimmed_lines (blob : text) : list text :=
  filter nonblank (map strip (file_lines blob)).

(** How often [v] occurs in [l], as a table entry: no entry for zero. *)
Definition tally (v : text) (l : list text) : option nat :=
  match count_occ (list_eq_dec ascii_dec) l v with
  | 0 => None
  | S n => Some (S n)
  end.

(** The distinct values of [l], each at its first occurrence. *)
Fixpoint first_seen (l : list text) : list text :=
  match l with
  | [] => []
  | x :: l' => x :: filter (fun y => negb (text_eqb x y)) (first_seen l')
  end.

Definition keys (c : counter) : list text := map fst c.

(** Lines joined into a blob, a line feed between them. *)
Fixpoint join_lines (ls : list text) : text :=
  match ls with
  | [] => []
  | [l] => l
  | l :: ls' => l ++ LF :: join_lines ls'
  end.

(** Lines joined into a blob, a line feed after each. *)
Fixpoint unlines (ls : list text) : text :=
  match ls with
  | [] => []
  | l :: ls' => l ++ LF :: unlines ls'
  end.

(** [c.get(v, 0)] *)
Definition count_of (v : text) (c : counter) : nat :=
  match counter_get v c with Some n => n | None => 0 end.

(** Every stored count is positive. *)
Definition positive (c : counter) : Prop :=
  forall v n, counter_get v c = Some n -> 0 < n.

Definition seen (v : text) (ks : list text) : bool := existsb (text_eqb v) ks.

(** What one turn of the loop adds to the list of level [lv]. *)
Definition kept (lv raw : text) : list text :=
  if nonblank (strip raw) && level_is lv (strip raw) then [strip raw] else [].

(** ** Vocabulary of the matcher's properties *)

(** The loop of [bt] on [Star r1], named. *)
Definition star_loop {A} (r1 : regex) (k : mstate -> option A) : nat -> mstate -> option A :=
  fix loop (fuel : nat) (st : mstate) : option A :=
    match fuel with
    | 0 => k st
    | S fuel' =>
        orelse
          (bt r1 st (fun st1 => if shorter st1 st then loop fuel' st1 else None))
          (k st)
    end.

(** The loop of [bt] on [Repeat lo hi r1], named. *)
Definition rep_loop {A} (r1 : regex) (k : mstate -> option A) : nat -> nat -> mstate -> option A :=
  fix rep (lo hi : nat) (st : mstate) : option A :=
    match hi with
    | 0 => if lo =? 0 then k st else None
    | S hi' =>
        orelse
          (bt r1 st (fun st1 => rep (pred lo) hi' st1))
          (if lo =? 0 then k st else None)
    end.

(** The state after reading the characters of [w]. *)
Fixpoint eat (w : text) (st : mstate) : mstate :=
  match w with
  | [] => st
  | c :: w' => eat w' (MState (Some c) (tl (rest st)) (caps st))
  end.

(** The texts a pattern can match, position and priority left aside
    ([\b] matches the empty text here). *)
Fixpoint denote (r : regex) (w : text) : Prop :=
  match r with
  | Eps | WordB => w = []
  | Lit c => w = [c]
  | Class cs => exists c, w = [c] /\ class_mem cs c = true
  | Seq r1 r2 => exists u v, w = u ++ v /\ denote r1 u /\ denote r2 v
  | Alt r1 r2 => denote r1 w \/ denote r2 w
  | Star r1 => exists ws, w = concat ws /\ Forall (denote r1) ws
  | Repeat lo hi r1 =>
      exists ws, w = concat ws /\ Forall (denote r1) ws /\ lo <= length ws <= hi
  | Group _ r1 => denote r1 w
  end.

(** [k] yields [x] on a state reached from [st] by reading a text that
    [r] denotes; a pattern without groups leaves the captures alone. *)
Definition reaches {A} (r : regex) (st : mstate) (k : mstate -> option A) (x : A) : Prop :=
  exists st' w,
    k st' = Some x /\ rest st = w ++ rest st' /\ denote r w /\
    (has_group r = false -> caps st' = caps st).

(** The parts of the article's pattern after [level=]: the level group
    [(warning|error)], and what follows its repetition. *)
Definition level_group : regex :=
  Group 1 (Alt (lit (str "warning")) (lit (str "error"))).

Definition failure_tail : list regex :=
  [ Star (Class [CWord; CChar " "]);
    Star (Class [CChar "="; CChar dq; CWord; CChar " "; CChar "."]);
    Class [CChar "f"; CChar "F"];
    lit (str "ailed") ].

(** The characters [[\=\<dq>\w \.]] admits between the level and the
    failure word. *)
Definition filler (c : ascii) : bool :=
  class_mem [CChar "="; CChar dq; CWord; CChar " "; CChar "."] c.

(** The state after the group has read and captured [w]. *)
Definition capture (w : text) (st : mstate) : mstate :=
  set_group 1 (consumed st (eat w st)) (eat w st).

(** A match that filed its line under [lv]. *)
Definition found (lv : text) (o : option mstate) : Prop :=
  exists st_f, o = Some st_f /\ lookup_group 1 (caps st_f) = Some lv.

(** ** Addresses, read off the text directly *)

(** The leading run of decimal digits of [s], and what follows it. *)
Fixpoint digit_run (s : text) : text * text :=
  match s with
  | c :: s' =>
      if is_digit c then let (d, r) := digit_run s' in (c :: d, r) else ([], s)
  | [] => ([], [])
  end.

(** A group of one to three digits at the head of [s]. *)
Definition digit_group (s : text) : option (text * text) :=
  let (d, r) := digit_run s in
  if (1 <=? length d) && (length d <=? 3) then Some (d, r) else None.

(** A group and the dot after it. *)
Definition dotted_group (s : text) : option (text * text) :=
  match digit_group s with
  | Some (d, c :: r) => if Ascii.eqb "." c then Some (d ++ ["."%char], r) else None
  | _ => None
  end.

(** Four groups separated by dots at the head of [s]: the address and
    what follows it.  The groups are not range-checked. *)
Definition dotted_quad (s : text) : option (text * text) :=
  match dotted_group s with
  | Some (g1, s1) =>
      match dotted_group s1 with
      | Some (g2, s2) =>
          match dotted_group s2 with
          | Some (g3, s3) =>
              match digit_group s3 with
              | Some (g4, s4) => Some (g1 ++ g2 ++ g3 ++ g4, s4)
              | None => None
              end
          | None => None
          end
      | None => None
      end
  | None => None
  end.

(** A side of an address is free of word characters: the text ends
    there, or the neighbour is no letter, digit or underscore. *)
Definition not_word (o : option ascii) : bool := negb (word_opt o).

(** A side of an address is free of digits and dots. *)
Definition not_digit_dot (o : option ascii) : bool :=
  match o with
  | Some c => negb (is_digit c || Ascii.eqb "." c)
  | None => true
  end.

(** The address that starts at the head of [s], when one does and both
    its sides are [free]; [p] is the character before [s]. *)
Definition address_at (free : option ascii -> bool) (p : option ascii) (s : text)
  : option text :=
  if free p then
    match dotted_quad s with
    | Some (q, r) => if free (hd_error r) then Some q else None
    | None => None
    end
  else None.

(** The addresses met scanning left to right, each scan resuming after
    the address just found. *)
Fixpoint address_scan (free : option ascii -> bool) (p : option ascii) (s : text)
    (skip : nat) : list text :=
  match skip with
  | S n =>
      match s with
      | [] => []
      | c :: s' => address_scan free (Some c) s' n
      end
  | 0 =>
      match address_at free p s with
      | Some q =>
          q :: match s with
               | [] => []
               | c :: s' => address_scan free (Some c) s' (pred (length q))
               end
      | None =>
          match s with
          | [] => []
          | c :: s' => address_scan free (Some c) s' 0
          end
      end
  end.

(** The addresses of a blob, bounded by word boundaries. *)
Definition addresses (blob : text) : list text := address_scan not_word None blob 0.

(** The addresses of a blob under the reading "bounded by non-digit,
    non-dot context": every position is looked at. *)
Fixpoint digit_dot_bounded_from (p : option ascii) (s : text) : list text :=
  match address_at not_digit_dot p s with Some q => [q] | None => [] end
  ++ match s with
     | [] => []
     | c :: s' => digit_dot_bounded_from (Some c) s'
     end.

Definition digit_dot_bounded_addresses (blob : text) : list text :=
  digit_dot_bounded_from None blob.

(** ** Request verbs, read off the text directly *)

Definition verbs : list text := [str "GET"; str "POST"; str "PUT"; str "DELETE"].

(** The verb right after a double quote at the head of [s]. *)
Definition verb_at (s : text) : option text :=
  match s with
  | c :: s' => if Ascii.eqb dq c then find (fun v => is_prefix v s') verbs else None
  | [] => None
  end.

(** The verbs that follow a double quote, position by position. *)
Fixpoint verb_occurrences (s : text) : list text :=
  match s with
  | [] => []
  | _ :: s' =>
      match verb_at s with
      | Some v => v :: verb_occurrences s'
      | None => verb_occurrences s'
      end
  end.

(** The number of positions of [s] at which [w] begins. *)
Fixpoint count_at (w s : text) : nat :=
  (if is_prefix w s then 1 else 0)
  + match s with [] => 0 | _ :: s' => count_at w s' end.

Definition entry (n : nat) : option nat :=
  match n with 0 => None | S _ => Some n end.

(** No double quote in [s]. *)
Definition no_quote (s : text) : bool := forallb (fun c => negb (Ascii.eqb dq c)) s.

(** A continuation that cannot go on between two digits. *)
Definition stops_at_digit {A} (k : mstate -> option A) : Prop :=
  forall c a s cps,
    is_digit c = true -> is_digit a = true -> k (MState (Some c) (a :: s) cps) = None.

(** ** Sample data *)

Definition quoted (s : string) : text := dq :: str s ++ [dq].

(** One line of [log1.txt]. *)
Definition log_line (time level msg file func kind : string) : text :=
  str "time=" ++ quoted time ++ str " level=" ++ str level
  ++ str " msg=" ++ quoted msg ++ str " file=" ++ quoted file
  ++ str " func=" ++ quoted func ++ str " kind=" ++ str kind.

Definition task1 : string := "corp/application1/task1.Dblogger".

(** The error line of [log1.txt]. *)
Definition database_line : text :=
  log_line "2020-03-18T14:40:30Z" "error"
    "Database stream initialisation failed. Have you tried installing the WAL2JASON plugin?"
    "corp/application1/task1.go:96" task1 "application".

(** The lines of [log1.txt], as the notebook writes them. *)
Definition log1_lines : list text :=
  [ log_line "2020-03-18T14:40:29Z" "info" "Starting application services"
      "main.go:30" "main.main" "application";
    log_line "2020-03-18T14:40:30Z" "info" "Initialising database connection"
      "corp/application1/database.go:55" "corp/application1.ConnectDB" "database";
    database_line;
    log_line "2020-03-18T14:40:31Z" "info" "Attempting to connect to external services"
      "corp/application1/task1.go:98" task1 "application";
    log_line "2020-03-18T14:40:31Z" "warning"
      "Connection to hostA.local failed: host unreachable"
      "corp/application1/task1.go:100" task1 "application";
    log_line "2020-03-18T14:40:31Z" "warning"
      "Connection to hostA.local failed: host unreachable"
      "corp/application1/task1.go:102" task1 "application";
    log_line "2020-03-18T14:40:31Z" "warning"
      "Connection to hostB.local failed: Could not resolve host"
      "corp/application1/task1.go:104" task1 "application";
    log_line "2020-03-18T14:40:35Z" "info" "Successfully connected to hostC.local"
      "corp/application1/task1.go:106" task1 "application";
    log_line "2020-03-18T14:40:38Z" "warning"
      "Failed to write record, duplicate key violation for primary key"
      "corp/interviews/application1/task1.go:114" task1 "application";
    log_line "2020-03-18T14:40:39Z" "info" "User 'jchan' logged in successfully"
      "auth.go:120" "auth.Login" "security";
    log_line "2020-03-18T14:40:40Z" "warning" "Archiving data source: old_records_2019"
      "archive.go:70" "archive.Run" "system" ].

(** The warning that reports no failure, as the specification quotes it. *)
Definition archiving_line : text :=
  str "time=" ++ quoted "2020-03-18T14:40:40Z" ++ str " level=warning msg="
  ++ quoted "Archiving data source: old_records_2019".

(** An error whose message names a device path before the failure word. *)
Definition device_line : text :=
  str "level=error msg=" ++ quoted "write to /dev/sda1 failed".

(** An error that failed, followed by a remark that mentions a warning
    level. *)
Definition remark_line : text :=
  str "level=error msg=" ++ quoted "sync failed"
  ++ str " note=" ++ quoted "was level=warning".

(** Three request lines without, and with, the quote that opens the
    request; each line ends with its line feed. *)
Definition bare_requests : text :=
  unlines [ str "GET /a HTTP/1.1" ++ dq :: str " 200";
            str "POST /b HTTP/1.1" ++ dq :: str " 404";
            str "GET /c HTTP/1.1" ++ dq :: str " 200" ].

Definition quoted_requests : text :=
  unlines [ quoted "GET /a HTTP/1.1" ++ str " 200";
            quoted "POST /b HTTP/1.1" ++ str " 404";
            quoted "GET /c HTTP/1.1" ++ str " 200" ].

(** An address after a letter, and an address before a full stop. *)
Definition address_note : text := str "x1.2.3.4 10.0.0.1.".

(** ** The window of the Log Analysis Tool

    The two text widgets, each held without the newline Tk keeps at its
    end. *)

Record gui : Type := Gui {
  log_text : text;
  result_text : text
}.

(** [f"{count}"]: a count in decimal digits. *)
Definition digit_char (d : nat) : ascii := ascii_of_nat (48 + d).

Fixpoint decimal_from (fuel n : nat) (acc : text) : text :=
  match fuel with
  | 0 => acc
  | S fuel' =>
      let acc' := digit_char (n mod 10) :: acc in
      if n / 10 =? 0 then acc' else decimal_from fuel' (n / 10) acc'
  end.

Definition decimal (n : nat) : text := decimal_from (S n) n [].

(** [open_log_file]: [picked] is [None] when the file dialog returns no
    path, [Some raw] when it returns the path of a file that reads as
    [raw]; [file.read()] gives the text with its line ends translated. *)
Definition open_log_file (picked : option text) (g : gui) : gui :=
  match picked with
  | None => g
  | Some raw =>
      let cleared := [] in                            (* log_text.delete *)
      Gui (cleared ++ universal_newlines raw) (result_text g)
  end.

(** One [f"{value}: {count}\n"] line. *)
Definition count_line (kv : text * nat) : text :=
  fst kv ++ str ": " ++ decimal (snd kv) ++ [LF].

(** The lines a [for ... in table.items()] loop inserts. *)
Definition listing (c : counter) : text := concat (map count_line c).

(** What [analyze_logs] leaves in [result_text]. *)
Definition report (t : log_counts) : text :=
  let cleared := [] in                                (* result_text.delete *)
  cleared
  ++ str "IP Address Counts:" ++ [LF]
  ++ listing (ip_count t)
  ++ [LF] ++ str "Request Type Counts:" ++ [LF]
  ++ listing (request_count t)
  ++ [LF] ++ str "Status Code Counts:" ++ [LF]
  ++ listing (status_count t).

(** [analyze_logs] as the button runs it, on the window. *)
Definition analyze_logs_click (g : gui) : gui :=
  let log_content := log_text_get (log_text g) in
  Gui (log_text g) (report (analyze_logs log_content)).

(** ** Files and output of the parsing notebook *)

(** The files, and the lines printed so far.  A path spells a directory
    entry, which [spells] gives: two spellings of one name (a leading
    [./], another case where case is ignored) have the same entry.
    [dir] lists the entries in use, each with the file linked there, a
    number; several entries may be linked to one file.  [data] holds
    the contents by file.  Every entry is a regular file: directories
    and symbolic links at an entry are left out. *)
Record world : Type := World {
  spells : text -> text;
  dir : list (text * nat);
  data : nat -> text;
  stdout : list text
}.

(** The file linked at an entry. *)
Fixpoint linked (e : text) (d : list (text * nat)) : option nat :=
  match d with
  | [] => None
  | (e', i) :: d' => if text_eqb e e' then Some i else linked e d'
  end.

(** What is found at a path: the content of the file linked at its
    entry. *)
Definition fs (w : world) (path : text) : option text :=
  option_map (data w) (linked (spells w path) (dir w)).

(** A file number that no entry is linked to. *)
Definition unused (d : list (text * nat)) : nat :=
  S (fold_right (fun ei m => Nat.max (snd ei) m) 0 d).

(** [open(path, 'w')] and a write: the file linked at the entry is
    emptied and holds [content], under all its names; where there is
    no file, a new one is linked. *)
Definition fs_write (path content : text) (w : world) : world :=
  match linked (spells w path) (dir w) with
  | Some i =>
      World (spells w) (dir w)
            (fun j => if j =? i then content else data w j) (stdout w)
  | None =>
      let i := unused (dir w) in
      World (spells w) ((spells w path, i) :: dir w)
            (fun j => if j =? i then content else data w j) (stdout w)
  end.

(** [os.remove(path)]: the entry is taken out of the directory; the
    file stays under its other names. *)
Definition fs_remove (path : text) (w : world) : world :=
  World (spells w)
        (filter (fun ei => negb (text_eqb (fst ei) (spells w path))) (dir w))
        (data w) (stdout w).

(** Two paths that neither spell one entry nor lead to one file. *)
Definition apart (w : world) (p q : text) : Prop :=
  spells w p <> spells w q /\
  forall i, linked (spells w p) (dir w) = Some i ->
            linked (spells w q) (dir w) <> Some i.

(** What a write or a removal at [a] does to the directory: the names
    stay, the other entries stay, and the entry of [a] is linked, if
    at all, to the file it had or to a new one. *)
Definition touches (a : text) (w w' : world) : Prop :=
  spells w' = spells w /\
  (forall e, e <> spells w a -> linked e (dir w') = linked e (dir w)) /\
  (forall i, linked (spells w a) (dir w') = Some i ->
             linked (spells w a) (dir w) = Some i \/ unused (dir w) <= i).

Definition print (line : text) (w : world) : world :=
  World (spells w) (dir w) (data w) (stdout w ++ [line]).

(** [parse_log_file] on a path: the message for a missing file, and the
    two lists. *)
Definition parse_log_file_at (source_file_path : text) (w : world) : buckets * world :=
  match fs w source_file_path with
  | None =>
      (parse_log_file None,
       print (str "Error: Source file '" ++ source_file_path ++ str "' not found.") w)
  | Some raw => (parse_log_file (Some raw), w)
  end.

(** [save_messages]: the file is opened with [newline=''], so each
    message is written as it is, followed by a line feed. *)
Definition save_messages (messages : list text) (output_filename : text) (w : world)
  : world :=
  print (str "Saved " ++ decimal (length messages) ++ str " messages to "
         ++ output_filename)
        (fs_write output_filename (unlines messages) w).

(** One [if found: save ... else: print, remove] step of the cell that
    runs the parser; [kind] is ["errors"] or ["warnings"]. *)
Definition save_or_remove (kind : string) (found : list text)
    (source output : text) (w : world) : world :=
  match found with
  | _ :: _ => save_messages found output w
  | [] =>
      let w1 := print (str "No 'failed' " ++ str kind ++ str " found in "
                       ++ source ++ str " matching the criteria.") w in
      match fs w1 output with
      | Some _ => fs_remove output w1
      | None => w1
      end
  end.

(** The cell that processes [source_log_file]. *)
Definition run_parser (source_log_file error_output_file warning_output_file : text)
    (w : world) : world :=
  let w0 := print (str "Processing " ++ source_log_file ++ str "...") w in
  let '((errors_found, warnings_found), w1) := parse_log_file_at source_log_file w0 in
  let w2 := save_or_remove "errors" errors_found source_log_file error_output_file w1 in
  let w3 := save_or_remove "warnings" warnings_found source_log_file warning_output_file w2 in
  print (LF :: str "--- Script Execution Complete ---") w3.

(** ** Status codes, read off the text directly *)

(** The status code at the head of [s]: a whitespace character, three
    digits, a whitespace character. *)
Definition status_at (s : text) : option text :=
  match s with
  | c0 :: d1 :: d2 :: d3 :: c4 :: _ =>
      if is_space c0 && (is_digit d1 && (is_digit d2 && (is_digit d3 && is_space c4)))
      then Some [d1; d2; d3] else None
  | _ => None
  end.

(** The status codes met scanning left to right; a scan resumes after
    the whitespace that closes the code just found. *)
Fixpoint status_scan (s : text) (skip : nat) : list text :=
  match skip with
  | S n =>
      match s with
      | [] => []
      | _ :: s' => status_scan s' n
      end
  | 0 =>
      match status_at s with
      | Some d =>
          d :: match s with
               | [] => []
               | _ :: s' => status_scan s' 4
               end
      | None =>
          match s with
          | [] => []
          | _ :: s' => status_scan s' 0
          end
      end
  end.

(** ** Shapes of table keys and of filed lines *)

(** One to three decimal digits. *)
Definition digits13 (d : text) : Prop :=
  forallb is_digit d = true /\ 1 <= length d <= 3.

(** Four groups of one to three digits, with dots between them. *)
Definition quad_shape (q : text) : Prop :=
  exists d1 d2 d3 d4,
    q = d1 ++ str "." ++ d2 ++ str "." ++ d3 ++ str "." ++ d4 /\
    digits13 d1 /\ digits13 d2 /\ digits13 d3 /\ digits13 d4.

(** Three decimal digits. *)
Definition status_shape (v : text) : Prop :=
  exists d1 d2 d3,
    v = [d1; d2; d3] /\ is_digit d1 = true /\ is_digit d2 = true /\ is_digit d3 = true.

(** The sum of the counts of a table. *)
Definition total (c : counter) : nat := fold_right (fun kv n => snd kv + n) 0 c.

(** Neither a line feed nor a carriage return. *)
Definition no_break (c : ascii) : bool := negb (Ascii.eqb c LF) && negb (Ascii.eqb c CR).

(** A text as [strip] leaves it: no whitespace at either end. *)
Definition trimmed (s : text) : Prop := lstrip s = s /\ lstrip (rev s) = rev s.

(** The number a text of decimal digits stands for. *)
Definition digits_value (s : text) : nat :=
  fold_left (fun a c => 10 * a + (code c - 48)) s 0.

(** A line as the file yields it: a body without line feed, then
    perhaps the line feed. *)
Definition line_shape (l : text) : Prop :=
  exists body, (l = body \/ l = body ++ [LF]) /\ ~ In LF body.

(** The number of line feeds in a text. *)
Definition line_feeds (s : text) : nat := count_occ ascii_dec s LF.

(** A line as the classifier files it: not empty, nothing left to
    trim, no line break inside. *)
Definition clean_line (l : text) : Prop :=
  l <> [] /\ strip l = l /\ forallb no_break l = true.

(** A line that holds [level=], then filler characters only, then
    [failed] or [Failed]. *)
Definition failure_shape (l : text) : Prop :=
  exists x mid kw y,
    l = x ++ str "level=" ++ mid ++ kw ++ y /\
    forallb filler mid = true /\
    (kw = str "failed" \/ kw = str "Failed").

(** A table as [Counter] builds it from [l]: each value once, each
    count at least one, and the counts add up to the length of [l]. *)
Definition well_formed_for (l : list text) (c : counter) : Prop :=
  NoDup (keys c) /\ Forall (fun kv => 1 <= snd kv) c /\ total c = length l.

(** The names the notebook gives its files. *)
Definition log1_txt : text := str "log1.txt".
Definition error_output_file : text := str "error_messages_from_log1.txt".
Definition warning_output_file : text := str "warning_messages_from_log1.txt".

(** A directory where every path spells an entry of its own, which
    holds [log1.txt] and an error file left by an earlier run; nothing
    printed yet. *)
Definition log1_world : world :=
  fs_write log1_txt (join_lines log1_lines)
    (fs_write error_output_file (str "left over")
       (World (fun path => path) [] (fun _ => []) [])).

(** An information line that mentions a failure. *)
Definition login_line : text := str "level=info msg=" ++ quoted "login failed".

(** A text with every line feed written as carriage return, line feed. *)
Fixpoint crlf (s : text) : text :=
  match s with
  | [] => []
  | c :: s' => if Ascii.eqb c LF then CR :: LF :: crlf s' else c :: crlf s'
  end.

(** No carriage return in [s]. *)
Definition no_cr (s : text) : bool := forallb (fun c => negb (Ascii.eqb c CR)) s.

(** ** Matches of a pattern, position by position *)

(** The value the pattern matches at the head of [s], when it matches
    there: what [re.findall] would list for that match. *)
Definition match_value (r : regex) (p : option ascii) (s : text) : option text :=
  match match_here r p s with
  | Some st =>
      Some (findall_item r (RMatch 0 (firstn (length s - length (rest st)) s) (caps st)))
  | None => None
  end.

(** The values the pattern matches in a text, one for every position
    at which it matches, whether or not a match further left reaches
    over that position. *)
Fixpoint every_match_from (r : regex) (p : option ascii) (s : text) : list text :=
  match match_value r p s with Some v => [v] | None => [] end
  ++ match s with
     | [] => []
     | c :: s' => every_match_from r (Some c) s'
     end.

Definition every_match (r : regex) (blob : text) : list text :=
  every_match_from r None blob.

(** Two status codes with one space between them, and three. *)
Definition two_codes : text := str " 200 512" ++ [LF].
Definition three_codes : text := str " 200 200 200 ".

(** ** The article's pattern, read off the line directly *)

(** Filler characters, then [failed] or [Failed]. *)
Fixpoint failure_follows (s : text) : bool :=
  is_prefix (str "failed") s || is_prefix (str "Failed") s
  || match s with
     | c :: s' => filler c && failure_follows s'
     | [] => false
     end.

(** The last of the level words [warning] and [error] that stand one
    after the other at the head of [s], [last] when there is none;
    [skip] counts the characters of the word being passed over. *)
Fixpoint level_run (s : text) (skip : nat) (last : option text) : option text :=
  match s with
  | [] => last
  | _ :: s' =>
      match skip with
      | S n => level_run s' n last
      | 0 =>
          if is_prefix (str "warning") s then level_run s' 6 (Some (str "warning"))
          else if is_prefix (str "error") s then level_run s' 4 (Some (str "error"))
          else last
      end
  end.

(** The first [level=] of the line that filler characters and a failure
    word follow decides: [Some] of the level read right after it.
    [None] when the line has no such marker. *)
Fixpoint read_match (s : text) : option (option text) :=
  if is_prefix (str "level=") s && failure_follows (skipn 6 s)
  then Some (level_run (skipn 6 s) 0 None)
  else match s with
       | _ :: s' => read_match s'
       | [] => None
       end.

(** The level a line reads as. *)
Definition read_level (line : text) : option text :=
  match read_match line with
  | Some lv => lv
  | None => None
  end.

Definition reads_as (lv line : text) : bool :=
  match read_level line with
  | Some v => text_eqb v lv
  | None => false
  end.

(** ** The lines of a blob, read off the text directly *)

(** The number of whitespace characters at the head of [s]. *)
Fixpoint leading_spaces (s : text) : nat :=
  match s with
  | c :: s' => if is_space c then S (leading_spaces s') else 0
  | [] => 0
  end.

(** The number of whitespace characters at the end of [s]. *)
Fixpoint trailing_spaces (s : text) : nat :=
  match s with
  | c :: s' =>
      if forallb is_space (c :: s') then S (length s') else trailing_spaces s'
  | [] => 0
  end.

(** The slice of [s] between its leading and its trailing whitespace. *)
Definition trim (s : text) : text :=
  let body := skipn (leading_spaces s) s in
  firstn (length body - trailing_spaces body) body.

(** A line feed or a carriage return. *)
Definition is_break (c : ascii) : bool := Ascii.eqb c LF || Ascii.eqb c CR.

(** The pieces of [s] between line breaks; [cur] is the piece being
    read. *)
Fixpoint pieces_from (cur s : text) : list text :=
  match s with
  | [] => [cur]
  | c :: s' =>
      if is_break c then cur :: pieces_from [] s' else pieces_from (cur ++ [c]) s'
  end.

(** The lines of a blob with the whitespace at both ends cut off, the
    blank ones left out, in input order. *)
Definition text_lines (blob : text) : list text :=
  filter nonblank (map trim (pieces_from [] blob)).

(** * Properties *)

(** ** Text comparison *)

Lemma text_eqb_eq (a b : text) : text_eqb a b = true <-> a = b.
Proof.
  unfold text_eqb. destruct (list_eq_dec ascii_dec a b); split; congruence.
Qed.

Lemma text_eqb_refl (a : text) : text_eqb a a = true.
Proof. apply text_eqb_eq. reflexivity. Qed.

Lemma text_eqb_neq (a b : text) : text_eqb a b = false <-> a <> b.
Proof.
  unfold text_eqb. destruct (list_eq_dec ascii_dec a b); split; congruence.
Qed.

Lemma text_eqb_sym (a b : text) : text_eqb a b = text_eqb b a.
Proof.
  destruct (text_eqb b a) eqn:E.
  - apply text_eqb_eq in E. subst. apply text_eqb_refl.
  - apply text_eqb_neq in E. apply text_eqb_neq. congruence.
Qed.

(** ** Counter *)

Section CounterFacts.

Implicit Types (k v : text) (c : counter) (l : list text).

Lemma counter_get_incr k v c :
  counter_get v (counter_incr k c) =
    if text_eqb k v then Some (S (count_of v c)) else counter_get v c.
Proof.
  unfold count_of. induction c as [|[k' n] c IH]; simpl.
  - rewrite text_eqb_sym. destruct (text_eqb v k); reflexivity.
  - destruct (text_eqb k' k) eqn:Ek; simpl.
    + apply text_eqb_eq in Ek. subst k'.
      destruct (text_eqb k v); reflexivity.
    + destruct (text_eqb k' v) eqn:Ev.
      * apply text_eqb_eq in Ev. subst k'.
        rewrite text_eqb_sym, Ek. reflexivity.
      * exact IH.
Qed.

Lemma positive_incr k c : positive c -> positive (counter_incr k c).
Proof.
  intros P v n. rewrite counter_get_incr.
  destruct (text_eqb k v); [intros [= <-]; lia | apply P].
Qed.

Lemma fold_incr_get v l : forall c,
  positive c ->
  counter_get v (fold_left (fun c k => counter_incr k c) l c) =
    match count_occ (list_eq_dec ascii_dec) l v + count_of v c with
    | 0 => None
    | S n => Some (S n)
    end.
Proof.
  induction l as [|x l IH]; intros c P; simpl.
  - unfold count_of. destruct (counter_get v c) as [n|] eqn:E; [|reflexivity].
    specialize (P v n E). destruct n; [lia | reflexivity].
  - rewrite IH by (apply positive_incr; exact P).
    unfold count_of at 1. rewrite counter_get_incr.
    destruct (list_eq_dec ascii_dec x v) as [->|N].
    + rewrite text_eqb_refl. simpl.
      replace (count_occ (list_eq_dec ascii_dec) l v + S (count_of v c))
        with (S (count_occ (list_eq_dec ascii_dec) l v + count_of v c)) by lia.
      reflexivity.
    + apply text_eqb_neq in N. rewrite N. reflexivity.
Qed.

Lemma Counter_get v l : counter_get v (Counter l) = tally v l.
Proof.
  unfold Counter, tally. rewrite fold_incr_get by (intros ? ? [=]).
  unfold count_of. simpl. rewrite Nat.add_0_r. reflexivity.
Qed.

Lemma keys_incr k c :
  keys (counter_incr k c) = if seen k (keys c) then keys c else keys c ++ [k].
Proof.
  unfold keys, seen. induction c as [|[k' n] c IH]; simpl; [reflexivity|].
  rewrite (text_eqb_sym k k').
  destruct (text_eqb k' k); simpl; [reflexivity|].
  rewrite IH. destruct (existsb (text_eqb k) (map fst c)); reflexivity.
Qed.

Lemma filter_filter_pred (f g h : text -> bool) l :
  (forall y, g y && h y = f y) ->
  filter g (filter h l) = filter f l.
Proof.
  intros E. induction l as [|y l IH]; simpl; [reflexivity|].
  specialize (E y). destruct (h y); simpl.
  - rewrite andb_true_r in E. rewrite E, IH. reflexivity.
  - rewrite andb_false_r in E. rewrite <- E. exact IH.
Qed.

Lemma seen_app v ks ks' : seen v (ks ++ ks') = seen v ks || seen v ks'.
Proof. apply existsb_app. Qed.

Lemma fold_incr_keys l : forall c,
  keys (fold_left (fun c k => counter_incr k c) l c) =
    keys c ++ filter (fun y => negb (seen y (keys c))) (first_seen l).
Proof.
  induction l as [|x l IH]; intros c; simpl.
  - rewrite app_nil_r. reflexivity.
  - rewrite IH, keys_incr. cbn [first_seen filter].
    destruct (seen x (keys c)) eqn:S; cbn [negb].
    + f_equal. symmetry. apply filter_filter_pred. intros y.
      destruct (text_eqb x y) eqn:E; simpl.
      * apply text_eqb_eq in E. subst y. rewrite S. reflexivity.
      * apply andb_true_r.
    + rewrite <- app_assoc. simpl. f_equal. f_equal.
      symmetry. apply filter_filter_pred.
      intros y. rewrite seen_app. simpl. rewrite orb_false_r.
      rewrite (text_eqb_sym y x), negb_orb. reflexivity.
Qed.

Lemma Counter_keys l : keys (Counter l) = first_seen l.
Proof.
  unfold Counter. rewrite fold_incr_keys. simpl.
  induction (first_seen l) as [|y t IH]; simpl; [reflexivity|].
  f_equal. exact IH.
Qed.

End CounterFacts.

(** ** The classifier's loop *)

Section Classifier.

Implicit Types (raw line : text) (ls : list text).

Lemma level_error_not_warning line :
  level_is (str "error") line = true -> level_is (str "warning") line = false.
Proof.
  unfold level_is. destruct (level_type line) as [v|]; [|discriminate].
  intros E. apply text_eqb_eq in E. subst v. reflexivity.
Qed.

Lemma classify_line_eq errors warnings raw :
  classify_line (errors, warnings) raw =
    (errors ++ kept (str "error") raw, warnings ++ kept (str "warning") raw).
Proof.
  unfold classify_line, kept, level_is, level_type.
  destruct (strip raw) as [|c line]; cbn [nonblank andb].
  - rewrite !app_nil_r. reflexivity.
  - destruct (re_search regex_pattern_article (c :: line)) as [m|].
    + destruct (group 1 m) as [lv|].
      * destruct (text_eqb lv (str "error")) eqn:E.
        -- apply text_eqb_eq in E. subst lv.
           change (text_eqb (str "error") (str "warning")) with false.
           rewrite app_nil_r. reflexivity.
        -- destruct (text_eqb lv (str "warning"));
             rewrite ?app_nil_r; reflexivity.
      * rewrite !app_nil_r. reflexivity.
    + rewrite !app_nil_r. reflexivity.
Qed.

Lemma kept_filter lv raw :
  kept lv raw = filter (level_is lv) (filter nonblank [strip raw]).
Proof.
  unfold kept. simpl. destruct (nonblank (strip raw)); simpl; [|reflexivity].
  destruct (level_is lv (strip raw)); reflexivity.
Qed.

Lemma classify_fold ls : forall errors warnings,
  fold_left classify_line ls (errors, warnings) =
    (errors ++ filter (level_is (str "error")) (filter nonblank (map strip ls)),
     warnings ++ filter (level_is (str "warning")) (filter nonblank (map strip ls))).
Proof.
  induction ls as [|raw ls IH]; intros errors warnings.
  - simpl. rewrite !app_nil_r. reflexivity.
  - cbn [fold_left]. rewrite classify_line_eq, IH, !kept_filter.
    rewrite <- !app_assoc.
    change (map strip (raw :: ls)) with ([strip raw] ++ map strip ls).
    rewrite !filter_app. reflexivity.
Qed.

Lemma classify_eq blob :
  classify blob =
    (filter (level_is (str "error")) (trimmed_lines blob),
     filter (level_is (str "warning")) (trimmed_lines blob)).
Proof.
  unfold classify, parse_log_file, trimmed_lines. apply classify_fold.
Qed.

Lemma filter_length_le {A} (f : A -> bool) (l : list A) :
  length (filter f l) <= length l.
Proof.
  induction l as [|x l IH]; simpl; [lia|]. destruct (f x); simpl; lia.
Qed.

(** No line is counted twice: the two lists together are no longer
    than the list of non-blank lines. *)
Lemma filter_disjoint_length {A} (f g : A -> bool) (l : list A) :
  (forall x, f x = true -> g x = false) ->
  length (filter f l) + length (filter g l) <= length l.
Proof.
  intros D. induction l as [|x l IH]; simpl; [lia|].
  specialize (D x). destruct (f x); [rewrite D by reflexivity|destruct (g x)];
    simpl; lia.
Qed.

Lemma file_lines_blank_first blob :
  file_lines (LF :: blob) = [LF] :: file_lines blob.
Proof. reflexivity. Qed.

End Classifier.

(** ** The matcher *)

Section Matcher.

Context {A : Type}.
Implicit Types (r : regex) (st : mstate) (k : mstate -> option A).

Lemma orelse_none_r (x : option A) : orelse x None = x.
Proof. destruct x; reflexivity. Qed.

Lemma orelse_some (x y : option A) a :
  orelse x y = Some a -> x = Some a \/ (x = None /\ y = Some a).
Proof. destruct x; simpl; intros E; [left|right]; auto. Qed.

Lemma bt_Star r st k : bt (Star r) st k = star_loop r k (length (rest st)) st.
Proof. reflexivity. Qed.

Lemma bt_Repeat lo hi r st k : bt (Repeat lo hi r) st k = rep_loop r k lo hi st.
Proof. reflexivity. Qed.

(** The matcher depends on its continuation only through its values. *)
Lemma bt_ext r : forall st k1 k2,
  (forall st', k1 st' = k2 st') -> bt r st k1 = bt r st k2.
Proof.
  induction r as [| c | cs | r1 IH1 r2 IH2 | r1 IH1 r2 IH2 | r1 IH1
                 | lo hi r1 IH1 | i r1 IH1 |]; intros st k1 k2 E.
  - apply E.
  - simpl. destruct (rest st); [reflexivity|]. rewrite E. reflexivity.
  - simpl. destruct (rest st); [reflexivity|]. rewrite E. reflexivity.
  - simpl. apply IH1. intros st1. apply IH2. exact E.
  - simpl. rewrite (IH1 st k1 k2 E), (IH2 st k1 k2 E). reflexivity.
  - rewrite !bt_Star. generalize (length (rest st)) as fuel. intros fuel.
    revert st. induction fuel as [|fuel IHf]; intros st; simpl; [apply E|].
    rewrite E. f_equal. apply IH1. intros st1. rewrite IHf. reflexivity.
  - rewrite !bt_Repeat. revert lo st.
    induction hi as [|hi IHh]; intros lo st; simpl; rewrite E; [reflexivity|].
    f_equal. apply IH1. intros st1. apply IHh.
  - simpl. apply IH1. intros st1. apply E.
  - simpl. rewrite E. reflexivity.
Qed.

(** A continuation that always fails makes the matcher fail. *)
Lemma bt_fail r : forall st, bt r st (fun _ => @None A) = None.
Proof.
  induction r as [| c | cs | r1 IH1 r2 IH2 | r1 IH1 r2 IH2 | r1 IH1
                 | lo hi r1 IH1 | i r1 IH1 |]; intros st.
  - reflexivity.
  - simpl. destruct (rest st) as [|a s]; [|destruct (Ascii.eqb c a)]; reflexivity.
  - simpl. destruct (rest st) as [|a s]; [|destruct (class_mem cs a)]; reflexivity.
  - simpl. rewrite (bt_ext r1 st _ (fun _ => None)); [apply IH1|].
    intros st1. apply IH2.
  - simpl. rewrite IH1, IH2. reflexivity.
  - rewrite bt_Star. generalize (length (rest st)) as fuel. intros fuel.
    revert st. induction fuel as [|fuel IHf]; intros st; simpl; [reflexivity|].
    rewrite (bt_ext r1 st _ (fun _ => None)); [rewrite IH1; reflexivity|].
    intros st1. rewrite IHf. destruct (shorter st1 st); reflexivity.
  - rewrite bt_Repeat. revert lo st.
    induction hi as [|hi IHh]; intros lo st; simpl.
    + destruct (lo =? 0); reflexivity.
    + rewrite (bt_ext r1 st _ (fun _ => None)); [rewrite IH1|].
      * destruct (lo =? 0); reflexivity.
      * intros st1. apply IHh.
  - simpl. apply IH1.
  - simpl. destruct (at_boundary st); reflexivity.
Qed.

(** The fuel of the [*] loop is never what stops it: any amount that
    covers the text left gives the same result. *)
Lemma star_loop_fuel r k : forall f1 f2 st,
  length (rest st) <= f1 -> length (rest st) <= f2 ->
  star_loop r k f1 st = star_loop r k f2 st.
Proof.
  assert (Z : forall f st, length (rest st) = 0 -> star_loop r k f st = k st).
  { intros [|f] st L; simpl; [reflexivity|].
    rewrite (bt_ext r st _ (fun _ => None)); [rewrite bt_fail; reflexivity|].
    intros st1. unfold shorter. rewrite L. reflexivity. }
  induction f1 as [|f1 IH]; intros f2 st L1 L2.
  - rewrite !Z by lia. reflexivity.
  - destruct f2 as [|f2]; [rewrite !Z by lia; reflexivity|].
    simpl. f_equal. apply bt_ext. intros st1. unfold shorter.
    destruct (length (rest st1) <? length (rest st)) eqn:S; [|reflexivity].
    apply Nat.ltb_lt in S. apply IH; lia.
Qed.

(** Hence [r*] is: one [r] that consumes something and [r*] again,
    or else nothing. *)
Lemma star_loop_S r k f st :
  star_loop r k (S f) st =
    orelse (bt r st (fun st1 => if shorter st1 st then star_loop r k f st1 else None))
           (k st).
Proof. reflexivity. Qed.

Lemma bt_star_unfold r st k :
  bt (Star r) st k =
    orelse (bt r st (fun st1 => if shorter st1 st then bt (Star r) st1 k else None))
           (k st).
Proof.
  rewrite bt_Star. destruct (length (rest st)) as [|n] eqn:L.
  - cbn [star_loop].
    rewrite (bt_ext r st _ (fun _ => None)); [rewrite bt_fail; reflexivity|].
    intros st1. unfold shorter. rewrite L. reflexivity.
  - rewrite star_loop_S. f_equal. apply bt_ext. intros st1. unfold shorter.
    destruct (length (rest st1) <? length (rest st)) eqn:S; [|reflexivity].
    apply Nat.ltb_lt in S. rewrite bt_Star. apply star_loop_fuel; lia.
Qed.

Lemma bt_star_class cs st k :
  bt (Star (Class cs)) st k =
    match rest st with
    | a :: s =>
        if class_mem cs a
        then orelse (bt (Star (Class cs)) (MState (Some a) s (caps st)) k) (k st)
        else k st
    | [] => k st
    end.
Proof.
  rewrite bt_star_unfold. cbn [bt]. destruct (rest st) as [|a s] eqn:R.
  - reflexivity.
  - destruct (class_mem cs a); [|reflexivity].
    unfold shorter. cbn [rest]. rewrite R.
    replace (length s <? length (a :: s)) with true; [reflexivity|].
    symmetry. apply Nat.ltb_lt. simpl. lia.
Qed.

End Matcher.

(** ** Prefixes and occurrences *)

Section Occurrences.

Implicit Types (p s x y : text).

Lemma is_prefix_spec p : forall s, is_prefix p s = true <-> exists y, s = p ++ y.
Proof.
  induction p as [|a p IH]; intros s; simpl.
  - split; [intros _; exists s; reflexivity | reflexivity].
  - destruct s as [|b s].
    + split; [discriminate | intros [y [=]]].
    + rewrite andb_true_iff, Ascii.eqb_eq, IH. split.
      * intros [-> [y ->]]. exists y. reflexivity.
      * intros [y [= -> ->]]. split; [reflexivity | exists y; reflexivity].
Qed.

Lemma is_prefix_app p y : is_prefix p (p ++ y) = true.
Proof. apply is_prefix_spec. exists y. reflexivity. Qed.

(** A prefix test only looks at as many characters as the prefix has. *)
Lemma is_prefix_window p : forall x y,
  length p <= length x -> is_prefix p (x ++ y) = is_prefix p x.
Proof.
  induction p as [|a p IH]; intros x y L; [reflexivity|].
  destruct x as [|b x]; simpl in *; [lia|].
  rewrite IH by lia. reflexivity.
Qed.

Lemma contains_spec p : forall s,
  contains p s = true <-> exists x y, s = x ++ p ++ y.
Proof.
  induction s as [|c s IH].
  - simpl. rewrite orb_false_r, is_prefix_spec. split.
    + intros [y E]. exists [], y. exact E.
    + intros [x [y E]]. destruct x; [exists y; exact E|discriminate].
  - cbn [contains]. rewrite orb_true_iff, is_prefix_spec, IH. split.
    + intros [[y E] | [x [y E]]].
      * exists [], y. exact E.
      * exists (c :: x), y. rewrite E. reflexivity.
    + intros [[|c' x] [y E]].
      * left. exists y. exact E.
      * right. injection E as -> ->. exists x, y. reflexivity.
Qed.

Lemma contains_intro p x y : contains p (x ++ p ++ y) = true.
Proof. apply contains_spec. exists x, y. reflexivity. Qed.

Lemma contains_tail p c s : contains p (c :: s) = false -> contains p s = false.
Proof. cbn [contains]. intros E. apply orb_false_iff in E. apply E. Qed.

Lemma contains_head p s : contains p s = false -> is_prefix p s = false.
Proof.
  destruct s; cbn [contains]; intros E; apply orb_false_iff in E; apply E.
Qed.

End Occurrences.

(** ** Literals, and what a match consumes *)

Section Literals.

Context {A : Type}.
Implicit Types (st : mstate) (k : mstate -> option A) (w : text).

Lemma eat_rest w : forall st, rest (eat w st) = skipn (length w) (rest st).
Proof.
  induction w as [|c w IH]; intros st; simpl; [reflexivity|].
  rewrite IH. simpl. destruct (rest st); [apply skipn_nil | reflexivity].
Qed.

Lemma eat_caps w : forall st, caps (eat w st) = caps st.
Proof.
  induction w as [|c w IH]; intros st; simpl; [reflexivity|].
  rewrite IH. reflexivity.
Qed.

Lemma bt_Lit c st k :
  bt (Lit c) st k = if is_prefix [c] (rest st) then k (eat [c] st) else None.
Proof.
  simpl. destruct (rest st) as [|a s]; [reflexivity|].
  rewrite andb_true_r. destruct (Ascii.eqb c a) eqn:E; [|reflexivity].
  apply Ascii.eqb_eq in E. subst a. reflexivity.
Qed.

(** A literal string matches when the text starts with it. *)
Lemma bt_lit w : forall st k,
  bt (lit w) st k = if is_prefix w (rest st) then k (eat w st) else None.
Proof.
  induction w as [|c w IH]; intros st k; [reflexivity|].
  destruct w as [|c' w]; [apply bt_Lit|].
  change (lit (c :: c' :: w)) with (Seq (Lit c) (lit (c' :: w))).
  cbn [bt]. destruct (rest st) as [|a s] eqn:R; [reflexivity|].
  cbn [is_prefix]. destruct (Ascii.eqb c a) eqn:E; [|reflexivity].
  apply Ascii.eqb_eq in E. subst a. rewrite IH. cbn [rest andb eat].
  rewrite R. reflexivity.
Qed.

End Literals.

(** ** Soundness of the matcher

    Whatever [bt] hands to its continuation was reached by reading a
    text the pattern denotes. *)

Section Soundness.

Context {A : Type}.
Implicit Types (st : mstate) (k : mstate -> option A).

Lemma bt_sound r : forall st k x, bt r st k = Some x -> reaches r st k x.
Proof.
  unfold reaches.
  induction r as [| c | cs | r1 IH1 r2 IH2 | r1 IH1 r2 IH2 | r1 IH1
                 | lo hi r1 IH1 | i r1 IH1 |]; intros st k x H.
  - exists st, []. simpl. auto.
  - simpl in H. destruct (rest st) as [|a s] eqn:R; [discriminate|].
    destruct (Ascii.eqb c a) eqn:E; [|discriminate].
    apply Ascii.eqb_eq in E. subst a.
    exists (MState (Some c) s (caps st)), [c]. simpl. auto.
  - simpl in H. destruct (rest st) as [|a s] eqn:R; [discriminate|].
    destruct (class_mem cs a) eqn:E; [|discriminate].
    exists (MState (Some a) s (caps st)), [a]. simpl. eauto 6.
  - simpl in H. apply IH1 in H. destruct H as (st1 & u & H & R1 & D1 & C1).
    apply IH2 in H. destruct H as (st2 & v & H & R2 & D2 & C2).
    exists st2, (u ++ v). rewrite <- app_assoc, <- R2.
    split; [exact H|]. split; [exact R1|]. split; [simpl; eauto|].
    simpl. intros G. apply orb_false_iff in G. destruct G as [G1 G2].
    rewrite C2, C1; auto.
  - simpl in H. apply orelse_some in H. destruct H as [H | [_ H]].
    + apply IH1 in H. destruct H as (st1 & u & H & R1 & D1 & C1).
      exists st1, u. simpl. repeat split; auto.
      intros G. apply orb_false_iff in G. apply C1, G.
    + apply IH2 in H. destruct H as (st1 & u & H & R1 & D1 & C1).
      exists st1, u. simpl. repeat split; auto.
      intros G. apply orb_false_iff in G. apply C1, G.
  - rewrite bt_Star in H.
    remember (length (rest st)) as fuel eqn:F. clear F. revert st H.
    induction fuel as [|fuel IHf]; intros st H.
    + exists st, []. split; [exact H|]. split; [reflexivity|].
      split; [exists []; auto | auto].
    + rewrite star_loop_S in H. apply orelse_some in H.
      destruct H as [H | [_ H]].
      * apply IH1 in H. destruct H as (st1 & u & H & R1 & D1 & C1).
        destruct (shorter st1 st); [|discriminate].
        apply IHf in H. destruct H as (st2 & v & H & R2 & (ws & -> & F) & C2).
        exists st2, (u ++ concat ws). rewrite <- app_assoc, <- R2.
        split; [exact H|]. split; [exact R1|].
        split; [exists (u :: ws); auto|].
        simpl. intros G. rewrite C2, C1; auto.
      * exists st, []. split; [exact H|]. split; [reflexivity|].
        split; [exists []; auto | auto].
  - rewrite bt_Repeat in H. revert lo st H.
    induction hi as [|hi IHh]; intros lo st H.
    + simpl in H. destruct (lo =? 0) eqn:L; [|discriminate].
      apply Nat.eqb_eq in L.
      exists st, []. split; [exact H|]. split; [reflexivity|].
      split; [|auto]. exists []. simpl. repeat split; auto; lia.
    + simpl in H. apply orelse_some in H. destruct H as [H | [_ H]].
      * apply IH1 in H. destruct H as (st1 & u & H & R1 & D1 & C1).
        apply IHh in H.
        destruct H as (st2 & v & H & R2 & (ws & -> & F & B) & C2).
        exists st2, (u ++ concat ws). rewrite <- app_assoc, <- R2.
        split; [exact H|]. split; [exact R1|]. split.
        -- exists (u :: ws). simpl. repeat split; auto; lia.
        -- simpl. intros G. rewrite C2, C1; auto.
      * destruct (lo =? 0) eqn:L; [|discriminate].
        apply Nat.eqb_eq in L.
        exists st, []. split; [exact H|]. split; [reflexivity|].
        split; [|auto]. exists []. simpl. repeat split; auto; lia.
  - simpl in H. apply IH1 in H. destruct H as (st1 & u & H & R1 & D1 & C1).
    exists (set_group i (consumed st st1) st1), u.
    simpl. repeat split; auto. discriminate.
  - simpl in H. destruct (at_boundary st); [|discriminate].
    exists st, []. simpl. auto.
Qed.

End Soundness.

Lemma denote_lit (w : text) : forall u, denote (lit w) u -> u = w.
Proof.
  induction w as [|c w IH]; intros u D; [exact D|].
  destruct w as [|c' w]; [exact D|].
  change (lit (c :: c' :: w)) with (Seq (Lit c) (lit (c' :: w))) in D.
  destruct D as (a & b & -> & Da & Db). simpl in Da. subst a.
  rewrite (IH b Db). reflexivity.
Qed.

(** ** Searching *)

Section Searching.

Implicit Types (r : regex) (s : text) (m : rmatch).

(** A match found by [re.search] is a match at some position. *)
Lemma search_from_some r : forall s pos p m,
  search_from r pos p s = Some m ->
  exists x s' p' st,
    s = x ++ s' /\ match_here r p' s' = Some st /\ m_caps m = caps st.
Proof.
  induction s as [|c s IH]; intros pos p m H; simpl in H.
  - destruct (match_here r p []) as [st|] eqn:M; [|discriminate].
    injection H as <-. exists [], [], p, st. auto.
  - destruct (match_here r p (c :: s)) as [st|] eqn:M.
    + injection H as <-. exists [], (c :: s), p, st. auto.
    + apply IH in H. destruct H as (x & s' & p' & st & -> & H & C).
      exists (c :: x), s', p', st. auto.
Qed.

End Searching.

(** ** The article's pattern: what a match needs *)

Section ArticleShape.

Implicit Types (s line : text).

Lemma class_fF c :
  class_mem [CChar "f"; CChar "F"] c = true -> c = "f"%char \/ c = "F"%char.
Proof.
  unfold class_mem. cbn [existsb cset_mem]. rewrite orb_false_r.
  intros E. apply orb_true_iff in E.
  destruct E as [E|E]; apply Ascii.eqb_eq in E; auto.
Qed.

(** A match of the article's pattern holds [level=] and, after it,
    [failed] or [Failed]. *)
Lemma article_match_shape p s st :
  match_here regex_pattern_article p s = Some st ->
  exists x mid kw y,
    s = x ++ str "level=" ++ mid ++ kw ++ y /\
    (kw = str "failed" \/ kw = str "Failed").
Proof.
  intros H. apply bt_sound in H.
  destruct H as (st' & w & _ & R & D & _). cbn [rest] in R.
  unfold regex_pattern_article in D. cbn [seqs denote] in D.
  destruct D as (w1 & t1 & -> & _ & w2 & t2 & -> & D2 & w3 & t3 & -> & _
                 & w4 & t4 & -> & _ & w5 & t5 & -> & _ & w6 & w7 & -> & D6 & D7).
  apply denote_lit in D2, D7. subst w2 w7.
  destruct D6 as (c & -> & C). apply class_fF in C.
  exists w1, (w3 ++ w4 ++ w5), (c :: str "ailed"), (rest st').
  split.
  - rewrite R. rewrite <- !app_assoc. reflexivity.
  - destruct C as [-> | ->]; auto.
Qed.

Lemma article_search_shape line m :
  re_search regex_pattern_article line = Some m ->
  exists x mid kw y,
    line = x ++ str "level=" ++ mid ++ kw ++ y /\
    (kw = str "failed" \/ kw = str "Failed").
Proof.
  intros H. apply search_from_some in H.
  destruct H as (x0 & s' & p' & st & -> & H & _).
  apply article_match_shape in H.
  destruct H as (x & mid & kw & y & -> & K).
  exists (x0 ++ x), mid, kw, y. rewrite <- app_assoc. auto.
Qed.

(** When the first [level=] of a line is followed by no failure word,
    the pattern matches nowhere. *)
Lemma no_failure_no_match pre tail :
  contains (str "level=") (pre ++ str "level") = false ->
  contains (str "failed") tail = false ->
  contains (str "Failed") tail = false ->
  re_search regex_pattern_article (pre ++ str "level=" ++ tail) = None.
Proof.
  intros First F1 F2.
  destruct (re_search _ _) as [m|] eqn:H; [exfalso|reflexivity].
  apply article_search_shape in H.
  destruct H as (x & mid & kw & y & E & K).
  apply app_eq_app in E. destruct E as (l & [[E1 E2] | [E1 E2]]).
  - (* the matched marker starts inside [pre] *)
    destruct l as [|c l].
    + injection E2 as E2. subst tail.
      destruct K as [-> | ->];
        [rewrite contains_intro in F1 | rewrite contains_intro in F2];
        discriminate.
    + subst pre.
      assert (P : is_prefix (str "level=") ((c :: l) ++ str "level") = true).
      { rewrite <- (is_prefix_window _ _ (str "=" ++ tail)).
        - rewrite <- app_assoc.
          change (str "level" ++ str "=" ++ tail) with (str "level=" ++ tail).
          rewrite <- E2. apply is_prefix_app.
        - rewrite length_app. simpl. lia. }
      apply is_prefix_spec in P. destruct P as [z P].
      rewrite <- app_assoc, P in First.
      rewrite contains_intro in First. discriminate.
  - (* the matched marker starts at or after the first one *)
    destruct l as [|c l].
    + injection E2 as E2. subst tail.
      destruct K as [-> | ->];
        [rewrite contains_intro in F1 | rewrite contains_intro in F2];
        discriminate.
    + assert (T : exists z, tail = z ++ kw ++ y).
      { destruct l as [|c2 [|c3 [|c4 [|c5 [|c6 l]]]]];
          simpl in E2; try congruence.
        injection E2 as _ _ _ _ _ _ ->.
        exists (l ++ str "level=" ++ mid). rewrite <- !app_assoc. reflexivity. }
      destruct T as [z ->].
      destruct K as [-> | ->];
        [rewrite contains_intro in F1 | rewrite contains_intro in F2];
        discriminate.
Qed.

End ArticleShape.


(** ** The article's pattern: when a match is found *)

Ltac star_step :=
  rewrite bt_star_class; cbn [rest caps];
  match goal with
  | |- context [class_mem ?cs ?c] =>
      let b := eval vm_compute in (class_mem cs c) in
      change (class_mem cs c) with b; cbv iota
  end.

Section ArticleMatch.

Implicit Types (st : mstate) (x y mid kw post tail lv : text).

Lemma article_parts :
  regex_pattern_article =
    seqs (Star (Class [CWord]) :: lit (str "level=") :: Star level_group :: failure_tail).
Proof. reflexivity. Qed.

Lemma orelse_found {A} (a b : option A) : b <> None -> orelse a b <> None.
Proof. destruct a; simpl; [discriminate | auto]. Qed.

Lemma orelse_found_l {A} (a b : option A) : a <> None -> orelse a b <> None.
Proof. destruct a; simpl; [discriminate | congruence]. Qed.

Lemma skipn_exact {A} (x y : list A) : skipn (length x) (x ++ y) = y.
Proof. induction x; simpl; auto. Qed.

Lemma firstn_exact {A} (x y : list A) :
  firstn (length (x ++ y) - length y) (x ++ y) = x.
Proof.
  rewrite length_app, Nat.add_sub. induction x; simpl; [destruct y|]; congruence.
Qed.

(** [cs*] finds a way through whenever some run of class characters
    leads the continuation to succeed. *)
Lemma star_class_found {A} cs (k : mstate -> option A) : forall x st,
  is_prefix x (rest st) = true ->
  forallb (class_mem cs) x = true ->
  k (eat x st) <> None ->
  bt (Star (Class cs)) st k <> None.
Proof.
  induction x as [|a x IH]; intros st P C K; rewrite bt_star_class.
  - simpl in K. destruct (rest st) as [|b s]; [exact K|].
    destruct (class_mem cs b); [apply orelse_found|]; exact K.
  - destruct (rest st) as [|b s] eqn:R; [discriminate|].
    cbn [is_prefix] in P. apply andb_true_iff in P. destruct P as [E P].
    apply Ascii.eqb_eq in E. subst b.
    cbn [forallb] in C. apply andb_true_iff in C. destruct C as [Ca C].
    rewrite Ca. apply orelse_found_l. apply IH; auto.
    cbn [eat] in K. rewrite R in K. exact K.
Qed.

(** After the level, filler characters and a failure word are enough
    for the rest of the pattern, which captures nothing. *)
Lemma failure_tail_found mid kw post st :
  rest st = mid ++ kw ++ post ->
  forallb filler mid = true ->
  kw = str "failed" \/ kw = str "Failed" ->
  exists st_f,
    bt (seqs failure_tail) st (fun st' => Some st') = Some st_f /\
    caps st_f = caps st.
Proof.
  intros R C K.
  destruct (bt (seqs failure_tail) st (fun st' => Some st')) as [st_f|] eqn:E.
  - exists st_f. split; [reflexivity|].
    apply bt_sound in E. destruct E as (st' & w & [= <-] & _ & _ & G).
    apply G. reflexivity.
  - exfalso. revert E.
    change (bt (seqs failure_tail) st (fun st' => Some st')) with
      (bt (Star (Class [CWord; CChar " "])) st (fun st1 =>
       bt (Star (Class [CChar "="; CChar dq; CWord; CChar " "; CChar "."])) st1 (fun st2 =>
       bt (Class [CChar "f"; CChar "F"]) st2 (fun st3 =>
       bt (lit (str "ailed")) st3 (fun st' => Some st'))))).
    apply (star_class_found _ _ []); [reflexivity | reflexivity |].
    cbn [eat].
    apply (star_class_found _ _ mid); [rewrite R; apply is_prefix_app | exact C |].
    cbn [bt]. rewrite eat_rest, R, skipn_exact.
    destruct K as [-> | ->]; simpl; discriminate.
Qed.

Lemma bt_level_group {A} (k : mstate -> option A) st :
  bt level_group st k =
    orelse (if is_prefix (str "warning") (rest st)
            then k (capture (str "warning") st) else None)
           (if is_prefix (str "error") (rest st)
            then k (capture (str "error") st) else None).
Proof. unfold level_group. cbn [bt]. rewrite !bt_lit. reflexivity. Qed.

Lemma capture_rest w tail st :
  rest st = w ++ tail -> rest (capture w st) = tail.
Proof.
  intros R. unfold capture, set_group. cbn [rest].
  rewrite eat_rest, R. apply skipn_exact.
Qed.

Lemma capture_group w tail st :
  rest st = w ++ tail -> lookup_group 1 (caps (capture w st)) = Some w.
Proof.
  intros R. unfold capture, set_group, consumed. cbn [caps lookup_group Nat.eqb].
  rewrite eat_rest, R, skipn_exact, firstn_exact. reflexivity.
Qed.

Lemma capture_shorter w tail st :
  rest st = w ++ tail -> w <> [] -> shorter (capture w st) st = true.
Proof.
  intros R N. unfold shorter. rewrite (capture_rest w tail st R), R.
  apply Nat.ltb_lt. rewrite length_app. destruct w; [congruence | simpl; lia].
Qed.

(** The level group, read greedily at the level word [lv]: one turn
    of the group, which captures [lv], and then the rest of the
    pattern. *)
Lemma level_group_found (k : mstate -> option mstate) lv tail st :
  lv = str "error" \/ lv = str "warning" ->
  rest st = lv ++ tail ->
  is_prefix (str "warning") tail = false ->
  is_prefix (str "error") tail = false ->
  (forall st', rest st' = tail ->
     exists st_f, k st' = Some st_f /\ caps st_f = caps st') ->
  found lv (bt (Star level_group) st k).
Proof.
  intros L R W E K.
  assert (T : forall st', rest st' = tail -> bt (Star level_group) st' k = k st').
  { intros st' R'. rewrite bt_star_unfold, bt_level_group, R', W, E. reflexivity. }
  destruct (K (capture lv st) (capture_rest _ _ _ R)) as (st_f & Kf & Cf).
  exists st_f. split.
  - rewrite bt_star_unfold, bt_level_group, R.
    destruct L as [-> | ->].
    + change (is_prefix (str "warning") (str "error" ++ tail)) with false.
      rewrite is_prefix_app. cbn [orelse].
      rewrite (capture_shorter _ tail) by (auto; discriminate).
      rewrite T by (eapply capture_rest; eauto). rewrite Kf. reflexivity.
    + rewrite is_prefix_app.
      rewrite (capture_shorter _ tail) by (auto; discriminate).
      rewrite T by (eapply capture_rest; eauto). rewrite Kf. reflexivity.
  - rewrite Cf. eapply capture_group; eauto.
Qed.

(** At the marker itself [\w*] gives way: the word characters of
    [level] are handed back one by one. *)
Lemma star_word_marker {A} (k : mstate -> option A) st tail :
  rest st = str "level=" ++ tail ->
  bt (Star (Class [CWord])) st (fun st1 => bt (lit (str "level=")) st1 k)
    = k (eat (str "level=") st).
Proof.
  intros R.
  rewrite bt_star_class, R. cbn [str list_ascii_of_string app].
  change (class_mem [CWord] "l") with true. cbv iota.
  do 5 star_step.
  rewrite !bt_lit. cbn [rest].
  repeat match goal with
         | |- context [is_prefix ?p (?c :: ?s)] =>
             let b := eval cbv in (is_prefix p (c :: s)) in
             change (is_prefix p (c :: s)) with b; cbv iota
         end.
  cbn [orelse]. rewrite R.
  replace (is_prefix _ _) with true; [reflexivity|].
  symmetry. exact (is_prefix_app (str "level=") tail).
Qed.

(** Before the first marker [\w*] can only run up to it. *)
Lemma prefix_scan {A} (k : mstate -> option A) tail : forall u st,
  rest st = u ++ str "level=" ++ tail ->
  contains (str "level=") (u ++ str "level") = false ->
  let o := bt (Star (Class [CWord])) st
             (fun st1 => bt (lit (str "level=")) st1 k) in
  o = None \/ exists st', rest st' = tail /\ caps st' = caps st /\ o = k st'.
Proof.
  induction u as [|c u IH]; intros st R First o; subst o.
  - right. exists (eat (str "level=") st).
    rewrite eat_rest, eat_caps, R, (star_word_marker k st tail R).
    repeat split.
  - assert (K0 : bt (lit (str "level=")) st k = None).
    { rewrite bt_lit, R.
      change ((c :: u) ++ str "level=" ++ tail)
        with ((c :: u) ++ str "level" ++ str "=" ++ tail).
      rewrite app_assoc, is_prefix_window, (contains_head _ _ First);
        [reflexivity|].
      rewrite length_app. simpl. lia. }
    rewrite bt_star_class, R. cbn [app]. rewrite K0.
    destruct (class_mem [CWord] c); [|left; reflexivity].
    rewrite orelse_none_r.
    apply (IH (MState (Some c) (u ++ str "level=" ++ tail) (caps st)));
      [reflexivity|].
    apply (contains_tail _ c). exact First.
Qed.

Lemma search_from_eq r pos p s :
  search_from r pos p s =
    match match_here r p s with
    | Some st => Some (RMatch pos (firstn (length s - length (rest st)) s) (caps st))
    | None =>
        match s with
        | [] => None
        | c :: s' => search_from r (S pos) (Some c) s'
        end
    end.
Proof. destruct s; reflexivity. Qed.

Section Marker.

Variables lv mid kw post : text.
Hypothesis Hlv : lv = str "error" \/ lv = str "warning".
Hypothesis Hkw : kw = str "failed" \/ kw = str "Failed".
Hypothesis Hmid : forallb filler mid = true.
Hypothesis Hw : is_prefix (str "warning") (mid ++ kw ++ post) = false.
Hypothesis He : is_prefix (str "error") (mid ++ kw ++ post) = false.

Lemma after_marker_found st :
  rest st = lv ++ mid ++ kw ++ post ->
  found lv (bt (seqs (Star level_group :: failure_tail)) st (fun st' => Some st')).
Proof.
  intros R.
  change (bt (seqs (Star level_group :: failure_tail)) st (fun st' => Some st'))
    with (bt (Star level_group) st
            (fun st1 => bt (seqs failure_tail) st1 (fun st' => Some st'))).
  apply (level_group_found _ lv (mid ++ kw ++ post)); auto.
  intros st' R'. apply (failure_tail_found mid kw post); auto.
Qed.

Lemma match_here_scan u p :
  contains (str "level=") (u ++ str "level") = false ->
  let o := match_here regex_pattern_article p
             (u ++ str "level=" ++ lv ++ mid ++ kw ++ post) in
  (o = None /\ u <> []) \/ found lv o.
Proof.
  intros First o. subst o. unfold match_here.
  set (st := MState p (u ++ str "level=" ++ lv ++ mid ++ kw ++ post) []).
  change (bt regex_pattern_article st (fun st' => Some st'))
    with (bt (Star (Class [CWord])) st (fun st1 =>
          bt (lit (str "level=")) st1 (fun st2 =>
          bt (seqs (Star level_group :: failure_tail)) st2
             (fun st' => Some st')))).
  destruct u as [|c u].
  - right. rewrite (star_word_marker _ st (lv ++ mid ++ kw ++ post) eq_refl).
    apply after_marker_found. reflexivity.
  - destruct (prefix_scan
                (fun st2 => bt (seqs (Star level_group :: failure_tail)) st2
                               (fun st' => Some st'))
                (lv ++ mid ++ kw ++ post) (c :: u) st eq_refl First)
      as [N | (st' & R' & _ & E)].
    + left. split; [exact N | discriminate].
    + right. rewrite E. apply after_marker_found. exact R'.
Qed.

(** The search over a line whose first marker is the one at hand. *)
Lemma article_search_found : forall pre pos p,
  contains (str "level=") (pre ++ str "level") = false ->
  exists m,
    search_from regex_pattern_article pos p
      (pre ++ str "level=" ++ lv ++ mid ++ kw ++ post) = Some m /\
    group 1 m = Some lv.
Proof.
  induction pre as [|c pre IH]; intros pos p First;
    rewrite search_from_eq;
    destruct (match_here_scan _ p First) as [[N U] | (st_f & E & G)];
    try congruence;
    try (rewrite E; eexists; split; [reflexivity | exact G]).
  rewrite N. apply IH. apply (contains_tail _ c). exact First.
Qed.

Lemma level_type_found pre :
  contains (str "level=") (pre ++ str "level") = false ->
  level_type (pre ++ str "level=" ++ lv ++ mid ++ kw ++ post) = Some lv.
Proof.
  intros First. unfold level_type, re_search.
  destruct (article_search_found pre 0 None First) as (m & -> & G). exact G.
Qed.

End Marker.

End ArticleMatch.

(** ** The verb pattern *)

Section Verbs.

Implicit Types (s v : text) (st : mstate).

Lemma verbs_cases v :
  In v verbs -> v = str "GET" \/ v = str "POST" \/ v = str "PUT" \/ v = str "DELETE".
Proof. simpl. intuition auto. Qed.

(** At one position the pattern finds the verb after the quote. *)
Lemma match_here_request p s :
  match_here request_pattern p s =
    match verb_at s with
    | Some v => Some (capture v (MState (Some dq) (tl s) []))
    | None => None
    end.
Proof.
  destruct s as [|c s]; [reflexivity|].
  unfold match_here, request_pattern, verb_at. cbn [bt rest caps alts tl].
  destruct (Ascii.eqb dq c) eqn:E; [|reflexivity].
  apply Ascii.eqb_eq in E. subst c.
  rewrite !bt_lit. cbn [rest find verbs].
  destruct (is_prefix (str "GET") s); [reflexivity|].
  destruct (is_prefix (str "POST") s); [reflexivity|].
  destruct (is_prefix (str "PUT") s); [reflexivity|].
  destruct (is_prefix (str "DELETE") s); reflexivity.
Qed.

(** No verb starts another one. *)
Lemma verb_unique v v' s :
  In v verbs -> In v' verbs ->
  is_prefix v s = true -> is_prefix v' s = true -> v = v'.
Proof.
  intros V V' P P'. apply is_prefix_spec in P. destruct P as [y ->].
  apply verbs_cases in V, V'.
  destruct V as [-> | [-> | [-> | ->]]];
    destruct V' as [-> | [-> | [-> | ->]]];
    solve [reflexivity | discriminate P'].
Qed.

Lemma verb_at_spec v s :
  In v verbs -> (verb_at s = Some v <-> is_prefix (dq :: v) s = true).
Proof.
  intros V. destruct s as [|c s]; [split; discriminate|].
  cbn [verb_at is_prefix]. destruct (Ascii.eqb dq c); [|split; discriminate].
  cbn [andb]. split.
  - intros F. apply find_some in F. apply F.
  - intros P. destruct (find (fun v0 => is_prefix v0 s) verbs) as [v'|] eqn:F.
    + apply find_some in F. destruct F as [V' P'].
      f_equal. apply (verb_unique v' v s); auto.
    + exfalso. apply (find_none _ _ F) in V. simpl in V. congruence.
Qed.

Lemma verb_at_in s v :
  verb_at s = Some v -> In v verbs /\ exists y, s = dq :: v ++ y.
Proof.
  destruct s as [|c s]; [discriminate|]. cbn [verb_at].
  destruct (Ascii.eqb dq c) eqn:E; [|discriminate]. apply Ascii.eqb_eq in E. subst c.
  intros F. apply find_some in F. destruct F as [V P]. split; [exact V|].
  apply is_prefix_spec in P. destruct P as [y ->]. exists y. reflexivity.
Qed.

Lemma verb_no_quote v : In v verbs -> no_quote v = true.
Proof.
  intros V. apply verbs_cases in V.
  destruct V as [-> | [-> | [-> | ->]]]; reflexivity.
Qed.

Lemma findall_item_request m :
  findall_item request_pattern m = match group 1 m with Some w => w | None => [] end.
Proof. reflexivity. Qed.

(** The scan, whatever it still has to pass over, lists the verbs
    position by position. *)
Lemma finditer_request : forall s pos p skip,
  no_quote (firstn skip s) = true ->
  map (findall_item request_pattern) (finditer_from request_pattern pos p s skip)
    = verb_occurrences s.
Proof.
  induction s as [|c s IH]; intros pos p skip Q.
  - destruct skip; reflexivity.
  - destruct skip as [|n].
    + cbn [finditer_from]. rewrite match_here_request. cbn [verb_occurrences].
      destruct (verb_at (c :: s)) as [v|] eqn:E.
      * destruct (verb_at_in _ _ E) as [V [y S]].
        injection S as -> ->.
        cbn [map]. f_equal.
        -- rewrite findall_item_request. unfold group. cbn [m_caps tl].
           rewrite (capture_group v y) by reflexivity. reflexivity.
        -- rewrite (capture_rest v y) by reflexivity.
           replace (pred (length (firstn (length (dq :: v ++ y) - length y) (dq :: v ++ y))))
             with (length v).
           ++ apply IH. rewrite firstn_app, Nat.sub_diag, firstn_all, app_nil_r.
              apply verb_no_quote, V.
           ++ change (dq :: v ++ y) with ((dq :: v) ++ y).
              rewrite firstn_exact. reflexivity.
      * apply IH. reflexivity.
    + cbn [finditer_from verb_occurrences].
      cbn [firstn no_quote forallb] in Q. apply andb_true_iff in Q.
      destruct Q as [Qc Q]. unfold verb_at.
      destruct (Ascii.eqb dq c); [discriminate|]. apply IH. exact Q.
Qed.

Lemma findall_request blob : findall request_pattern blob = verb_occurrences blob.
Proof. apply finditer_request. reflexivity. Qed.

(** Each position where a quote and the verb begin counts once. *)
Lemma count_verb_occurrences v : In v verbs -> forall s,
  count_occ (list_eq_dec ascii_dec) (verb_occurrences s) v = count_at (dq :: v) s.
Proof.
  intros V. induction s as [|c s IH]; [reflexivity|].
  cbn [verb_occurrences count_at].
  destruct (verb_at (c :: s)) as [v'|] eqn:E.
  - destruct (list_eq_dec ascii_dec v' v) as [->|N].
    + rewrite count_occ_cons_eq by reflexivity.
      apply (verb_at_spec v _ V) in E. rewrite E. exact (f_equal S IH).
    + rewrite count_occ_cons_neq by exact N.
      destruct (is_prefix (dq :: v) (c :: s)) eqn:P; [|exact IH].
      apply (verb_at_spec v _ V) in P. congruence.
  - destruct (is_prefix (dq :: v) (c :: s)) eqn:P; [|exact IH].
    apply (verb_at_spec v _ V) in P. congruence.
Qed.

Lemma request_count_entry blob v :
  In v verbs ->
  counter_get v (request_count (extract blob)) = entry (count_at (dq :: v) blob).
Proof.
  intros V. unfold extract, analyze_logs. cbn [request_count].
  rewrite Counter_get, findall_request. unfold tally.
  rewrite (count_verb_occurrences v V). destruct (count_at (dq :: v) blob); reflexivity.
Qed.

End Verbs.

(** ** The address pattern *)

Section Addresses.

Implicit Types (s q : text) (st : mstate).

Lemma class_digit c : class_mem [CRange "0" "9"] c = is_digit c.
Proof. unfold class_mem. cbn [existsb cset_mem]. apply orb_false_r. Qed.

Lemma digit_word c : is_digit c = true -> is_word c = true.
Proof. unfold is_digit, is_word. intros ->. reflexivity. Qed.

Lemma digit_not_dot c : is_digit c = true -> Ascii.eqb "." c = false.
Proof.
  intros D. destruct (Ascii.eqb "." c) eqn:E; [|reflexivity].
  apply Ascii.eqb_eq in E. subst c. discriminate D.
Qed.

Lemma rep_loop_S {A} r (k : mstate -> option A) lo hi st :
  rep_loop r k lo (S hi) st =
    orelse (bt r st (fun st1 => rep_loop r k (pred lo) hi st1))
           (if lo =? 0 then k st else None).
Proof. reflexivity. Qed.

Lemma rep_loop_0 {A} r (k : mstate -> option A) lo st :
  rep_loop r k lo 0 st = if lo =? 0 then k st else None.
Proof. reflexivity. Qed.

Lemma bt_Class {A} cs (k : mstate -> option A) st :
  bt (Class cs) st k =
    match rest st with
    | a :: s => if class_mem cs a then k (MState (Some a) s (caps st)) else None
    | [] => None
    end.
Proof. reflexivity. Qed.

Lemma bt_digit_group {A} (k : mstate -> option A) st :
  stops_at_digit k ->
  bt (Repeat 1 3 (Class [CRange "0" "9"])) st k =
    match digit_group (rest st) with
    | Some (d, _) => k (eat d st)
    | None => None
    end.
Proof.
  intros H. rewrite bt_Repeat. destruct st as [p s cps]. unfold digit_group.
  cbn [rest].
  rewrite rep_loop_S, bt_Class. cbn [rest caps Nat.eqb pred].
  destruct s as [|c1 s]; [reflexivity|]. rewrite class_digit. cbn [digit_run].
  destruct (is_digit c1) eqn:D1; [|reflexivity].
  rewrite orelse_none_r.
  rewrite rep_loop_S, bt_Class. cbn [rest caps Nat.eqb pred].
  destruct s as [|c2 s]; [reflexivity|]. rewrite class_digit. cbn [digit_run].
  destruct (is_digit c2) eqn:D2; [|reflexivity].
  rewrite (H c1 c2 s cps D1 D2), orelse_none_r.
  rewrite rep_loop_S, bt_Class. cbn [rest caps Nat.eqb pred].
  destruct s as [|c3 s]; [reflexivity|]. rewrite class_digit. cbn [digit_run].
  destruct (is_digit c3) eqn:D3; [|reflexivity].
  rewrite (H c2 c3 s cps D2 D3), orelse_none_r, rep_loop_0. cbn [Nat.eqb].
  destruct s as [|c4 s]; [reflexivity|]. cbn [digit_run].
  destruct (is_digit c4) eqn:D4; [|reflexivity].
  rewrite (H c3 c4 s cps D3 D4). destruct (digit_run s). reflexivity.
Qed.

Lemma digit_run_spec : forall s d r,
  digit_run s = (d, r) -> s = d ++ r /\ forallb is_digit d = true.
Proof.
  induction s as [|c s IH]; intros d r E; cbn [digit_run] in E.
  - injection E as <- <-. auto.
  - destruct (is_digit c) eqn:D.
    + destruct (digit_run s) as [d' r']. injection E as <- <-.
      destruct (IH d' r' eq_refl) as [-> F]. cbn [forallb]. rewrite D, F. auto.
    + injection E as <- <-. auto.
Qed.

Lemma digit_group_spec s d r :
  digit_group s = Some (d, r) ->
  s = d ++ r /\ forallb is_digit d = true /\ d <> [].
Proof.
  unfold digit_group. destruct (digit_run s) as [d' r'] eqn:E.
  destruct ((1 <=? length d') && (length d' <=? 3)) eqn:L; [|discriminate].
  intros [= <- <-]. destruct (digit_run_spec _ _ _ E) as [-> F].
  repeat split; auto. intros ->. discriminate L.
Qed.

Lemma dotted_group_spec s g r :
  dotted_group s = Some (g, r) ->
  s = g ++ r /\ exists c s', s = c :: s' /\ is_digit c = true.
Proof.
  unfold dotted_group. destruct (digit_group s) as [[d [|c r']]|] eqn:G; try discriminate.
  destruct (Ascii.eqb "." c) eqn:E; [|discriminate]. apply Ascii.eqb_eq in E. subst c.
  intros [= <- <-]. destruct (digit_group_spec _ _ _ G) as (-> & F & N).
  split; [rewrite <- app_assoc; reflexivity|].
  destruct d as [|c d]; [congruence|]. cbn [forallb] in F.
  apply andb_true_iff in F. exists c, (d ++ "."%char :: r').
  split; [reflexivity | apply F].
Qed.

Lemma eat_app x : forall y st, eat (x ++ y) st = eat y (eat x st).
Proof. induction x as [|c x IH]; intros y st; [reflexivity | apply IH]. Qed.

Lemma eat_rest_app x r st : rest st = x ++ r -> rest (eat x st) = r.
Proof. intros R. rewrite eat_rest, R. apply skipn_exact. Qed.

(** After a group of digits the character before is a word character. *)
Lemma eat_prev_digit d : forall st,
  d <> [] -> forallb is_digit d = true -> word_opt (prev (eat d st)) = true.
Proof.
  induction d as [|c d IH]; intros st N F; [congruence|].
  cbn [forallb] in F. apply andb_true_iff in F. destruct F as [Dc F].
  cbn [eat]. destruct d as [|c' d].
  - simpl. apply digit_word, Dc.
  - apply IH; [discriminate | exact F].
Qed.

Lemma bt_Seq {A} r1 r2 (k : mstate -> option A) st :
  bt (Seq r1 r2) st k = bt r1 st (fun st1 => bt r2 st1 k).
Proof. reflexivity. Qed.

Lemma bt_dotted_group {A} (k : mstate -> option A) st :
  bt (Seq (Repeat 1 3 (Class [CRange "0" "9"])) (Lit ".")) st k =
    match dotted_group (rest st) with
    | Some (g, _) => k (eat g st)
    | None => None
    end.
Proof.
  rewrite bt_Seq, bt_digit_group.
  - unfold dotted_group.
    destruct (digit_group (rest st)) as [[d r]|] eqn:G; [|reflexivity].
    destruct (digit_group_spec _ _ _ G) as (R & _ & _).
    rewrite bt_Lit, (eat_rest_app d r st R).
    destruct r as [|c r]; [reflexivity|].
    cbn [is_prefix]. rewrite andb_true_r.
    destruct (Ascii.eqb "." c); [|reflexivity].
    rewrite eat_app. reflexivity.
  - intros c a s cps _ D. cbn [bt rest]. rewrite (digit_not_dot a D). reflexivity.
Qed.

Lemma bt_three {A} r (k : mstate -> option A) st :
  bt (Repeat 3 3 r) st k = bt r st (fun st1 => bt r st1 (fun st2 => bt r st2 k)).
Proof.
  rewrite bt_Repeat, rep_loop_S. cbn [Nat.eqb pred].
  rewrite orelse_none_r. apply bt_ext. intros st1.
  rewrite rep_loop_S. cbn [Nat.eqb pred].
  rewrite orelse_none_r. apply bt_ext. intros st2.
  rewrite rep_loop_S. cbn [Nat.eqb pred].
  rewrite orelse_none_r. apply bt_ext. intros st3.
  reflexivity.
Qed.

Lemma bt_last_group st :
  bt (Seq (Repeat 1 3 (Class [CRange "0" "9"])) WordB) st (fun st' => Some st') =
    match digit_group (rest st) with
    | Some (g, r) => if not_word (hd_error r) then Some (eat g st) else None
    | None => None
    end.
Proof.
  rewrite bt_Seq, bt_digit_group.
  - destruct (digit_group (rest st)) as [[d r]|] eqn:G; [|reflexivity].
    destruct (digit_group_spec _ _ _ G) as (R & F & N).
    cbn [bt]. unfold at_boundary, not_word.
    rewrite (eat_prev_digit d st N F), (eat_rest_app d r st R).
    reflexivity.
  - intros c a s cps Dc Da. cbn [bt]. unfold at_boundary. cbn [prev rest word_opt hd_error].
    rewrite (digit_word c Dc), (digit_word a Da). reflexivity.
Qed.

(** At one position the pattern finds the address that [address_at]
    reads there. *)
Lemma match_here_ip p s :
  match_here ip_pattern p s =
    match address_at not_word p s with
    | Some q => Some (eat q (MState p s []))
    | None => None
    end.
Proof.
  unfold match_here, address_at, dotted_quad.
  set (st := MState p s []).
  change (bt ip_pattern st (fun st' => Some st')) with
    (if at_boundary st
     then bt (Repeat 3 3 (Seq (Repeat 1 3 (Class [CRange "0" "9"])) (Lit "."))) st
            (fun st3 => bt (Seq (Repeat 1 3 (Class [CRange "0" "9"])) WordB) st3
                           (fun st' => Some st'))
     else None).
  rewrite bt_three, bt_dotted_group. cbn [rest st].
  destruct (dotted_group s) as [[g1 s1]|] eqn:G1.
  2:{ destruct (at_boundary st), (not_word p); reflexivity. }
  destruct (dotted_group_spec _ _ _ G1) as (R1 & c & s' & E & D).
  assert (B : at_boundary st = not_word p).
  { unfold at_boundary, not_word, st. cbn [prev rest]. rewrite E. cbn [hd_error word_opt].
    rewrite (digit_word c D). destruct (word_opt p); reflexivity. }
  rewrite B. destruct (not_word p); [|reflexivity].
  rewrite bt_dotted_group, (eat_rest_app g1 s1 st R1).
  destruct (dotted_group s1) as [[g2 s2]|] eqn:G2; [|reflexivity].
  destruct (dotted_group_spec _ _ _ G2) as (R2 & _).
  rewrite bt_dotted_group, (eat_rest_app g2 s2 (eat g1 st)) by (rewrite (eat_rest_app g1 s1 st R1); exact R2).
  destruct (dotted_group s2) as [[g3 s3]|] eqn:G3; [|reflexivity].
  destruct (dotted_group_spec _ _ _ G3) as (R3 & _).
  rewrite bt_last_group.
  rewrite (eat_rest_app g3 s3 (eat g2 (eat g1 st)))
    by (rewrite (eat_rest_app g2 s2 (eat g1 st)) by (rewrite (eat_rest_app g1 s1 st R1); exact R2); exact R3).
  destruct (digit_group s3) as [[g4 s4]|]; [|reflexivity].
  destruct (not_word (hd_error s4)); [|reflexivity].
  rewrite !eat_app. reflexivity.
Qed.

Lemma address_at_spec free p s q :
  address_at free p s = Some q -> exists r, s = q ++ r.
Proof.
  unfold address_at, dotted_quad. destruct (free p); [|discriminate].
  destruct (dotted_group s) as [[g1 s1]|] eqn:G1; [|discriminate].
  destruct (dotted_group s1) as [[g2 s2]|] eqn:G2; [|discriminate].
  destruct (dotted_group s2) as [[g3 s3]|] eqn:G3; [|discriminate].
  destruct (digit_group s3) as [[g4 s4]|] eqn:G4; [|discriminate].
  destruct (free (hd_error s4)); [|discriminate]. intros [= <-].
  apply dotted_group_spec in G1, G2, G3. apply digit_group_spec in G4.
  destruct G1 as [-> _], G2 as [-> _], G3 as [-> _], G4 as [-> _].
  exists s4. rewrite <- !app_assoc. reflexivity.
Qed.

(** The scan of [re.findall] with the address pattern is the scan
    that reads addresses off the text. *)
Lemma finditer_ip : forall s pos p skip,
  map (findall_item ip_pattern) (finditer_from ip_pattern pos p s skip)
    = address_scan not_word p s skip.
Proof.
  assert (Item : forall pos s q r (cps : list (nat * text)), s = q ++ r ->
            findall_item ip_pattern
              (RMatch pos (firstn (length s - length r) s) cps) = q).
  { intros pos s q r cps ->. unfold findall_item. cbn [has_group ip_pattern seqs orb m_text].
    apply firstn_exact. }
  induction s as [|c s IH]; intros pos p skip.
  - destruct skip; [|reflexivity]. cbn [finditer_from address_scan].
    rewrite match_here_ip. destruct (address_at not_word p []) as [q|] eqn:E; [|reflexivity].
    destruct (address_at_spec _ _ _ _ E) as [r R].
    cbn [map]. rewrite (eat_rest_app q r) by exact R.
    rewrite (Item pos [] q r) by exact R. reflexivity.
  - destruct skip as [|n]; [|apply IH]. cbn [finditer_from address_scan].
    rewrite match_here_ip. destruct (address_at not_word p (c :: s)) as [q|] eqn:E; [|apply IH].
    destruct (address_at_spec _ _ _ _ E) as [r R].
    cbn [map]. rewrite (eat_rest_app q r) by exact R.
    rewrite (Item pos (c :: s) q r) by exact R.
    f_equal. rewrite R at 1 2. rewrite firstn_exact. apply IH.
Qed.

Lemma findall_ip blob : findall ip_pattern blob = addresses blob.
Proof. apply finditer_ip. Qed.

End Addresses.


(** ** Matches of the extractor's patterns are never empty *)

Section NonEmpty.

Implicit Types (r : regex) (s w : text).

(** What a match consumed is a text the pattern denotes. *)
Lemma match_here_denote r p s st :
  match_here r p s = Some st -> exists w, s = w ++ rest st /\ denote r w.
Proof.
  intros H. apply bt_sound in H. destruct H as (st' & w & [= <-] & R & D & _).
  exists w. auto.
Qed.

(** None of the three patterns of [analyze_logs] matches the empty
    text, so each match moves the scan of [re.findall] forward. *)
Lemma extract_patterns_consume r p s st :
  r = ip_pattern \/ r = request_pattern \/ r = status_pattern ->
  match_here r p s = Some st -> length (rest st) < length s.
Proof.
  intros R H. destruct (match_here_denote _ _ _ _ H) as (w & -> & D).
  rewrite length_app. enough (w <> []) by (destruct w; [congruence | simpl; lia]).
  destruct R as [-> | [-> | ->]].
  - unfold ip_pattern in D. cbn [seqs denote] in D.
    destruct D as (w1 & t1 & -> & -> & w2 & t2 & -> & D2 & _).
    destruct D2 as (ws & -> & F & L).
    destruct ws as [|g ws]; [simpl in L; lia|].
    apply Forall_inv in F. destruct F as (d & dot & -> & _ & ->).
    simpl. destruct d; discriminate.
  - unfold request_pattern in D. cbn [denote] in D.
    destruct D as (w1 & t1 & -> & -> & _). discriminate.
  - unfold status_pattern in D. cbn [seqs denote] in D.
    destruct D as (w1 & t1 & -> & (c & -> & _) & _). discriminate.
Qed.

End NonEmpty.

(** ** Trimming and reading lines *)

Section Trimming.

Implicit Types (s t body raw line : text) (c : ascii).

Lemma lstrip_idem s : lstrip (lstrip s) = lstrip s.
Proof.
  induction s as [|c s IH]; [reflexivity|]. cbn [lstrip].
  destruct (is_space c) eqn:E; [exact IH|]. cbn [lstrip]. rewrite E. reflexivity.
Qed.

Lemma lstrip_snoc s c :
  is_space c = false -> lstrip (s ++ [c]) = lstrip s ++ [c].
Proof.
  intros E. induction s as [|a s IH]; cbn [lstrip app].
  - rewrite E. reflexivity.
  - destruct (is_space a); [exact IH | reflexivity].
Qed.

Lemma lstrip_head s c t : lstrip s = c :: t -> is_space c = false.
Proof.
  induction s as [|a s IH]; cbn [lstrip]; [discriminate|].
  destruct (is_space a) eqn:E; [exact IH|]. intros [= -> _]. exact E.
Qed.

Lemma lstrip_In s c : In c (lstrip s) -> In c s.
Proof.
  induction s as [|a s IH]; cbn [lstrip]; [auto|].
  destruct (is_space a); [right; auto | auto].
Qed.

(** What [strip] returns has no whitespace at either end. *)
Lemma strip_trimmed s : trimmed (strip s).
Proof.
  unfold trimmed, strip, rstrip. split.
  - destruct (lstrip s) as [|c u] eqn:L; [reflexivity|].
    pose proof (lstrip_head _ _ _ L) as E.
    cbn [rev]. rewrite (lstrip_snoc _ _ E), rev_app_distr. cbn [rev app lstrip].
    rewrite E. reflexivity.
  - rewrite rev_involutive. apply lstrip_idem.
Qed.

(** [strip] changes nothing in a text without whitespace at its ends. *)
Lemma strip_of_trimmed s : trimmed s -> strip s = s.
Proof.
  intros [L R]. unfold strip, rstrip. rewrite L, R. apply rev_involutive.
Qed.

Lemma strip_idem s : strip (strip s) = strip s.
Proof. apply strip_of_trimmed, strip_trimmed. Qed.

Lemma strip_In s c : In c (strip s) -> In c s.
Proof.
  unfold strip, rstrip. intros H. apply in_rev in H.
  apply lstrip_In in H. apply in_rev in H. apply lstrip_In in H. exact H.
Qed.

(** A line feed at the end of a line is stripped with the rest. *)
Lemma strip_line_feed s : strip (s ++ [LF]) = strip s.
Proof.
  unfold strip, rstrip. f_equal.
  assert (K : forall u, lstrip (rev (u ++ [LF])) = lstrip (rev u)).
  { intros u. rewrite rev_app_distr. reflexivity. }
  induction s as [|c s IH]; [reflexivity|]. cbn [app lstrip].
  destruct (is_space c); [exact IH|].
  change (c :: s ++ [LF]) with ((c :: s) ++ [LF]). apply K.
Qed.

End Trimming.

Section Lines.

Implicit Types (s cur body l line : text) (ls : list text) (c : ascii).

(** Reading in text mode leaves no carriage return. *)
Lemma universal_newlines_no_cr : forall s, ~ In CR (universal_newlines s).
Proof.
  assert (G : forall n s, length s <= n -> ~ In CR (universal_newlines s)).
  { induction n as [|n IH]; intros s L.
    - destruct s; [auto | simpl in L; lia].
    - destruct s as [|c s]; [auto|]. cbn [universal_newlines].
      simpl in L. destruct (Ascii.eqb c CR) eqn:E.
      + intros [H | H]; [discriminate H|].
        destruct s as [|c' s]; [exact H|].
        simpl in L. destruct (Ascii.eqb c' LF); apply (IH _) in H; auto; simpl; lia.
      + intros [H | H].
        * subst c. rewrite Ascii.eqb_refl in E. discriminate.
        * apply (IH s) in H; auto. lia. }
  intros s. apply (G (length s)). lia.
Qed.

(** A text without carriage returns is read as it is. *)
Lemma universal_newlines_id s :
  forallb no_break s = true -> universal_newlines s = s.
Proof.
  induction s as [|c s IH]; [reflexivity|]. cbn [forallb universal_newlines].
  intros H. apply andb_true_iff in H. destruct H as [Hc H].
  unfold no_break in Hc. apply andb_true_iff in Hc. destruct Hc as [_ Hc].
  destruct (Ascii.eqb c CR); [discriminate|]. rewrite IH by exact H. reflexivity.
Qed.

Lemma readlines_shape : forall s cur,
  ~ In LF cur -> Forall line_shape (readlines_from cur s).
Proof.
  induction s as [|c s IH]; intros cur N; cbn [readlines_from].
  - destruct cur; constructor; [|constructor]. exists (a :: cur). auto.
  - destruct (Ascii.eqb c LF) eqn:E.
    + apply Ascii.eqb_eq in E. subst c. constructor.
      * exists cur. auto.
      * apply IH. auto.
    + apply IH. intros H. apply in_app_or in H. destruct H as [H | [H | []]]; [auto|].
      subst c. rewrite Ascii.eqb_refl in E. discriminate.
Qed.

Lemma readlines_In : forall s cur l c,
  In l (readlines_from cur s) -> In c l -> In c cur \/ In c s.
Proof.
  induction s as [|a s IH]; intros cur l c L C; cbn [readlines_from] in L.
  - destruct cur; [destruct L|]. destruct L as [<- | []]. auto.
  - destruct (Ascii.eqb a LF).
    + destruct L as [<- | L].
      * apply in_app_or in C. destruct C as [C | [C | []]]; [auto|].
        right. left. exact C.
      * apply (IH _ _ _ L) in C. destruct C as [[] | C]. right. right. exact C.
    + apply (IH _ _ _ L) in C. destruct C as [C | C]; [|right; right; exact C].
      apply in_app_or in C. destruct C as [C | [C | []]]; [auto|].
      right. left. exact C.
Qed.

Lemma readlines_one_line : forall l cur rest,
  forallb no_break l = true ->
  readlines_from cur (l ++ LF :: rest) = (cur ++ l ++ [LF]) :: readlines_from [] rest.
Proof.
  induction l as [|c l IH]; intros cur rest N.
  - reflexivity.
  - cbn [forallb] in N. apply andb_true_iff in N. destruct N as [Nc N].
    unfold no_break in Nc. apply andb_true_iff in Nc. destruct Nc as [Nc _].
    cbn [app readlines_from]. destruct (Ascii.eqb c LF); [discriminate|].
    rewrite IH by exact N. rewrite <- app_assoc. reflexivity.
Qed.

Lemma unlines_no_break ls :
  Forall (fun l => forallb no_break l = true) ls ->
  universal_newlines (unlines ls) = unlines ls.
Proof.
  intros F. induction F as [|l ls Hl F IH]; [reflexivity|].
  cbn [unlines].
  assert (G : forall x y, forallb no_break x = true ->
            universal_newlines y = y ->
            universal_newlines (x ++ LF :: y) = x ++ LF :: y).
  { induction x as [|c x IHx]; intros y Nx Ey.
    - cbn. rewrite Ey. reflexivity.
    - cbn [forallb] in Nx. apply andb_true_iff in Nx. destruct Nx as [Nc Nx].
      unfold no_break in Nc. apply andb_true_iff in Nc. destruct Nc as [_ Nc].
      cbn [app universal_newlines]. destruct (Ascii.eqb c CR); [discriminate|].
      rewrite IHx; auto. }
  apply G; auto.
Qed.

(** Lines without line breaks, written one per line, are read back as
    they were written. *)
Lemma file_lines_unlines ls :
  Forall (fun l => forallb no_break l = true) ls ->
  file_lines (unlines ls) = map (fun l => l ++ [LF]) ls.
Proof.
  intros F. unfold file_lines. rewrite (unlines_no_break ls F).
  induction F as [|l ls Hl F IH]; [reflexivity|].
  cbn [unlines map]. rewrite readlines_one_line by exact Hl. rewrite IH. reflexivity.
Qed.

(** A trimmed line of a file holds no line break. *)
Lemma trimmed_line_no_break blob raw :
  In raw (file_lines blob) -> forallb no_break (strip raw) = true.
Proof.
  intros L. apply forallb_forall. intros c C.
  assert (NL : c <> LF).
  { intros ->.
    pose proof (readlines_shape (universal_newlines blob) [] (fun H => H)) as S.
    rewrite Forall_forall in S. destruct (S raw L) as (body & [-> | ->] & N).
    - apply N, (strip_In _ _ C).
    - rewrite strip_line_feed in C. apply N, (strip_In _ _ C). }
  assert (NC : c <> CR).
  { intros ->. apply strip_In in C.
    destruct (readlines_In _ _ _ _ L C) as [[] | H].
    exact (universal_newlines_no_cr _ H). }
  unfold no_break. apply Ascii.eqb_neq in NL, NC. rewrite NL, NC. reflexivity.
Qed.

End Lines.

Section RoundTrip.

Implicit Types (blob line : text) (ls : list text).

(** The trimmed lines of a blob: not empty, nothing to trim, no line
    break inside. *)
Lemma trimmed_lines_shape blob line :
  In line (trimmed_lines blob) ->
  line <> [] /\ trimmed line /\ forallb no_break line = true.
Proof.
  unfold trimmed_lines. intros H. apply filter_In in H. destruct H as [H N].
  apply in_map_iff in H. destruct H as (raw & <- & L).
  split; [intros E; rewrite E in N; discriminate|].
  split; [apply strip_trimmed | apply (trimmed_line_no_break blob raw L)].
Qed.

(** Written one per line and read again, such lines come back as the
    trimmed lines of the file. *)
Lemma trimmed_lines_unlines ls :
  Forall (fun l => l <> [] /\ trimmed l /\ forallb no_break l = true) ls ->
  trimmed_lines (unlines ls) = ls.
Proof.
  intros F. unfold trimmed_lines. rewrite file_lines_unlines.
  - rewrite map_map. induction F as [|l ls (N & T & _) F IH]; [reflexivity|].
    cbn [map filter]. rewrite strip_line_feed, (strip_of_trimmed l T).
    destruct l; [congruence|]. cbn [nonblank]. rewrite IH. reflexivity.
  - eapply Forall_impl; [|exact F]. intros l (_ & _ & B). exact B.
Qed.

Lemma filter_idem {A} (f : A -> bool) (l : list A) : filter f (filter f l) = filter f l.
Proof.
  induction l as [|x l IH]; [reflexivity|]. cbn [filter].
  destruct (f x) eqn:E; [cbn [filter]; rewrite E, IH|]; auto.
Qed.

Lemma filter_disjoint {A} (f g : A -> bool) (l : list A) :
  (forall x, f x = true -> g x = false) -> filter g (filter f l) = [].
Proof.
  intros D. induction l as [|x l IH]; [reflexivity|]. cbn [filter].
  destruct (f x) eqn:E; [cbn [filter]; rewrite (D x E)|]; auto.
Qed.

Lemma level_warning_not_error line :
  level_is (str "warning") line = true -> level_is (str "error") line = false.
Proof.
  unfold level_is. destruct (level_type line) as [v|]; [|discriminate].
  intros E. apply text_eqb_eq in E. subst v. reflexivity.
Qed.

(** Classifying the lines of one list again gives that list back, and
    nothing in the other. *)
Lemma classify_saved blob :
  classify (unlines (fst (classify blob))) = (fst (classify blob), []) /\
  classify (unlines (snd (classify blob))) = ([], snd (classify blob)).
Proof.
  rewrite (classify_eq blob). cbn [fst snd].
  assert (S : forall f, Forall (fun l => l <> [] /\ trimmed l /\ forallb no_break l = true)
                          (filter f (trimmed_lines blob))).
  { intros f. apply Forall_forall. intros l H. apply filter_In in H.
    apply (trimmed_lines_shape blob), H. }
  split; rewrite classify_eq, (trimmed_lines_unlines _ (S _)).
  - rewrite filter_idem, (filter_disjoint _ _ _ level_error_not_warning). reflexivity.
  - rewrite filter_idem, (filter_disjoint _ _ _ level_warning_not_error). reflexivity.
Qed.

End RoundTrip.

(** ** Tables and the status pattern *)

Section CounterInvariants.

Implicit Types (k v : text) (c : counter) (l : list text).

Lemma first_seen_In l v : In v (first_seen l) <-> In v l.
Proof.
  induction l as [|x l IH]; [reflexivity|]. cbn [first_seen]. split.
  - intros [-> | H]; [left; reflexivity|].
    apply filter_In in H. right. apply IH, H.
  - intros [-> | H]; [left; reflexivity|].
    destruct (list_eq_dec ascii_dec x v) as [->|N]; [left; reflexivity|].
    right. apply filter_In. split; [apply IH, H|].
    apply negb_true_iff, text_eqb_neq, N.
Qed.

Lemma first_seen_NoDup l : NoDup (first_seen l).
Proof.
  induction l as [|x l IH]; cbn [first_seen]; constructor.
  - intros H. apply filter_In in H. destruct H as [_ H].
    rewrite text_eqb_refl in H. discriminate.
  - apply NoDup_filter, IH.
Qed.

Lemma total_incr k c : total (counter_incr k c) = S (total c).
Proof.
  induction c as [|[k' n] c IH]; [reflexivity|]. cbn [counter_incr].
  destruct (text_eqb k' k); cbn [total fold_right snd] in *; [lia|].
  fold (total (counter_incr k c)). fold (total c). rewrite IH. lia.
Qed.

Lemma counts_incr k c :
  Forall (fun kv => 1 <= snd kv) c -> Forall (fun kv => 1 <= snd kv) (counter_incr k c).
Proof.
  induction 1 as [|[k' n] c H F IH]; cbn [counter_incr].
  - repeat constructor.
  - destruct (text_eqb k' k); constructor; auto. simpl. lia.
Qed.

Lemma fold_incr_invariants l : forall c,
  Forall (fun kv => 1 <= snd kv) c ->
  Forall (fun kv => 1 <= snd kv) (fold_left (fun c k => counter_incr k c) l c) /\
  total (fold_left (fun c k => counter_incr k c) l c) = length l + total c.
Proof.
  induction l as [|x l IH]; intros c F; cbn [fold_left length]; [auto|].
  destruct (IH (counter_incr x c) (counts_incr x c F)) as [F' T].
  split; [exact F'|]. rewrite T, total_incr. lia.
Qed.

(** A table built by [Counter]: each value once, each count at least
    one, and the counts add up to the number of items counted. *)
Lemma Counter_invariants l :
  NoDup (keys (Counter l)) /\
  Forall (fun kv => 1 <= snd kv) (Counter l) /\
  total (Counter l) = length l.
Proof.
  split; [rewrite Counter_keys; apply first_seen_NoDup|].
  destruct (fold_incr_invariants l [] (Forall_nil _)) as [F T].
  split; [exact F|]. unfold Counter. rewrite T. simpl. lia.
Qed.

End CounterInvariants.

Section StatusPattern.

Implicit Types (s : text) (st : mstate).

Lemma class_space c : class_mem [CSpace] c = is_space c.
Proof. unfold class_mem. cbn [existsb cset_mem]. apply orb_false_r. Qed.

Lemma class_decimal c : class_mem [CDigit] c = is_digit c.
Proof. unfold class_mem. cbn [existsb cset_mem]. apply orb_false_r. Qed.

Lemma bt_Group {A} i r (k : mstate -> option A) st :
  bt (Group i r) st k = bt r st (fun st1 => k (set_group i (consumed st st1) st1)).
Proof. reflexivity. Qed.

(** At one position the pattern finds the code that [status_at] reads
    there, and stops after the whitespace that closes it. *)
Lemma match_here_status p s :
  match_here status_pattern p s =
    match status_at s with
    | Some d => Some (MState (hd_error (skipn 4 s)) (skipn 5 s) [(1, d)])
    | None => None
    end.
Proof.
  unfold match_here, status_pattern, status_at.
  change (seqs [Class [CSpace]; Group 1 (Repeat 3 3 (Class [CDigit])); Class [CSpace]])
    with (Seq (Class [CSpace]) (Seq (Group 1 (Repeat 3 3 (Class [CDigit]))) (Class [CSpace]))).
  rewrite bt_Seq, bt_Class. cbn [rest caps].
  destruct s as [|c0 s]; [reflexivity|]. rewrite class_space.
  destruct (is_space c0); [|destruct s as [|? [|? [|? [|? ?]]]]; reflexivity].
  rewrite bt_Seq, bt_Group, bt_three, bt_Class. cbn [rest caps andb].
  destruct s as [|d1 s]; [reflexivity|]. rewrite class_decimal.
  destruct (is_digit d1); [|destruct s as [|? [|? [|? ?]]]; reflexivity].
  rewrite bt_Class. cbn [rest caps andb].
  destruct s as [|d2 s]; [reflexivity|]. rewrite class_decimal.
  destruct (is_digit d2); [|destruct s as [|? [|? ?]]; reflexivity].
  rewrite bt_Class. cbn [rest caps andb].
  destruct s as [|d3 s]; [reflexivity|]. rewrite class_decimal.
  destruct (is_digit d3); [|destruct s as [|? ?]; reflexivity].
  cbn [rest caps andb]. unfold set_group, consumed. cbn [rest caps prev].
  change (d1 :: d2 :: d3 :: s) with ([d1; d2; d3] ++ s) at 1 2.
  rewrite firstn_exact, bt_Class. cbn [rest caps skipn hd_error].
  destruct s as [|c4 s]; [reflexivity|]. rewrite class_space.
  destruct (is_space c4); reflexivity.
Qed.

Lemma findall_item_status m :
  findall_item status_pattern m = match group 1 m with Some w => w | None => [] end.
Proof. reflexivity. Qed.

Lemma finditer_status : forall s pos p skip,
  map (findall_item status_pattern) (finditer_from status_pattern pos p s skip)
    = status_scan s skip.
Proof.
  induction s as [|c s IH]; intros pos p skip.
  - destruct skip; reflexivity.
  - destruct skip as [|n]; [|apply IH]. cbn [finditer_from status_scan].
    rewrite match_here_status.
    destruct (status_at (c :: s)) as [d|] eqn:E; [|apply IH].
    cbn [map]. rewrite findall_item_status. unfold group. cbn [m_caps lookup_group Nat.eqb].
    f_equal. cbn [rest].
    replace (pred (length (firstn (length (c :: s) - length (skipn 5 (c :: s))) (c :: s))))
      with 4; [apply IH|].
    unfold status_at in E.
    destruct s as [|d1 [|d2 [|d3 [|c4 s]]]]; try discriminate.
    change (c :: d1 :: d2 :: d3 :: c4 :: s) with ([c; d1; d2; d3; c4] ++ s).
    cbn [skipn app]. change (c :: d1 :: d2 :: d3 :: c4 :: s) with ([c; d1; d2; d3; c4] ++ s).
    rewrite firstn_exact. reflexivity.
Qed.

(** The scan of [re.findall] with the status pattern is the scan that
    reads status codes off the text. *)
Lemma findall_status blob : findall status_pattern blob = status_scan blob 0.
Proof. apply finditer_status. Qed.

Lemma status_at_shape s d : status_at s = Some d -> status_shape d.
Proof.
  unfold status_at. destruct s as [|c0 [|d1 [|d2 [|d3 [|c4 s]]]]]; try discriminate.
  destruct (is_space c0); [|discriminate]. cbn [andb].
  destruct (is_digit d1) eqn:D1; [|discriminate]. cbn [andb].
  destruct (is_digit d2) eqn:D2; [|discriminate]. cbn [andb].
  destruct (is_digit d3) eqn:D3; [|discriminate]. cbn [andb].
  destruct (is_space c4); [|discriminate]. intros [= <-].
  exists d1, d2, d3. auto.
Qed.

Lemma status_scan_shape : forall s skip, Forall status_shape (status_scan s skip).
Proof.
  induction s as [|c s IH]; intros skip.
  - destruct skip; constructor.
  - destruct skip as [|n]; [|apply IH]. cbn [status_scan].
    destruct (status_at (c :: s)) as [d|] eqn:E; [|apply IH].
    constructor; [apply (status_at_shape _ _ E) | apply IH].
Qed.

End StatusPattern.

(** ** What a filed line looks like *)

Section FiledLines.

Implicit Types (s line : text) (st : mstate).

Lemma word_is_filler c : class_mem [CWord; CChar " "] c = true -> filler c = true.
Proof.
  unfold filler, class_mem. cbn [existsb cset_mem]. rewrite !orb_false_r.
  intros H. apply orb_true_iff in H. destruct H as [-> | ->];
    rewrite ?orb_true_r; reflexivity.
Qed.

Lemma star_class_denote cs w :
  denote (Star (Class cs)) w -> forallb (class_mem cs) w = true.
Proof.
  intros (ws & -> & F). induction F as [|u ws (c & -> & C) F IH]; [reflexivity|].
  cbn [concat app forallb]. rewrite C, IH. reflexivity.
Qed.

Lemma level_group_denote w :
  denote (Star level_group) w -> forallb filler w = true.
Proof.
  intros (ws & -> & F). induction F as [|u ws D F IH]; [reflexivity|].
  cbn [concat]. rewrite forallb_app, IH, andb_true_r.
  unfold level_group in D. cbn [denote] in D.
  destruct D as [D | D]; apply denote_lit in D; subst u; reflexivity.
Qed.

(** A match of the article's pattern, in full: [level=], then filler
    characters only, then [failed] or [Failed]. *)
Lemma article_match_filler p s st :
  match_here regex_pattern_article p s = Some st ->
  exists x mid kw y,
    s = x ++ str "level=" ++ mid ++ kw ++ y /\
    forallb filler mid = true /\
    (kw = str "failed" \/ kw = str "Failed").
Proof.
  intros H. apply bt_sound in H.
  destruct H as (st' & w & _ & R & D & _). cbn [rest] in R.
  rewrite article_parts in D. unfold failure_tail in D. cbn [seqs denote] in D.
  destruct D as (w1 & t1 & -> & _ & w2 & t2 & -> & D2 & w3 & t3 & -> & D3
                 & w4 & t4 & -> & D4 & w5 & t5 & -> & D5 & w6 & w7 & -> & D6 & D7).
  apply denote_lit in D2, D7. subst w2 w7.
  destruct D6 as (c & -> & C). apply class_fF in C.
  exists w1, (w3 ++ w4 ++ w5), (c :: str "ailed"), (rest st').
  split; [rewrite R, <- !app_assoc; reflexivity|]. split.
  - assert (F3 : forallb filler w3 = true) by exact (level_group_denote w3 D3).
    assert (F5 : forallb filler w5 = true) by exact (star_class_denote _ w5 D5).
    assert (F4 : forallb filler w4 = true).
    { apply forallb_forall. intros a A. apply word_is_filler.
      pose proof (star_class_denote _ w4 D4) as F4.
      rewrite forallb_forall in F4. auto. }
    rewrite !forallb_app, F3, F4, F5. reflexivity.
  - destruct C as [-> | ->]; auto.
Qed.

Lemma level_type_shape line lv :
  level_type line = Some lv ->
  exists x mid kw y,
    line = x ++ str "level=" ++ mid ++ kw ++ y /\
    forallb filler mid = true /\
    (kw = str "failed" \/ kw = str "Failed").
Proof.
  unfold level_type. destruct (re_search regex_pattern_article line) as [m|] eqn:H;
    [|discriminate]. intros _.
  apply search_from_some in H. destruct H as (x0 & s' & p' & st & -> & H & _).
  apply article_match_filler in H. destruct H as (x & mid & kw & y & -> & F & K).
  exists (x0 ++ x), mid, kw, y. rewrite <- app_assoc. auto.
Qed.

Lemma contains_suffix p : forall x s, contains p (x ++ s) = false -> contains p s = false.
Proof.
  induction x as [|c x IH]; intros s H; [exact H|].
  apply IH. apply (contains_tail p c). exact H.
Qed.

Lemma is_prefix_cancel p : forall q s, is_prefix (p ++ q) (p ++ s) = is_prefix q s.
Proof.
  induction p as [|c p IH]; intros q s; [reflexivity|].
  cbn [app is_prefix]. rewrite Ascii.eqb_refl. apply IH.
Qed.

(** Without [level=error] and [level=warning] in the text, a match of
    the article's pattern captures no level. *)
Lemma no_level_word_no_capture p s st :
  contains (str "level=error") s = false ->
  contains (str "level=warning") s = false ->
  match_here regex_pattern_article p s = Some st -> caps st = [].
Proof.
  intros E W H. unfold match_here in H.
  change (bt regex_pattern_article (MState p s []) (fun st' => Some st'))
    with (bt (Star (Class [CWord])) (MState p s []) (fun st1 =>
          bt (lit (str "level=")) st1 (fun st2 =>
          bt (Star level_group) st2 (fun st3 =>
          bt (seqs failure_tail) st3 (fun st' => Some st'))))) in H.
  apply bt_sound in H. destruct H as (st1 & w & H & R & _ & C1).
  cbn [rest caps] in R, C1. specialize (C1 eq_refl).
  rewrite bt_lit in H. destruct (is_prefix (str "level=") (rest st1)) eqn:P; [|discriminate].
  apply is_prefix_spec in P. destruct P as [y P].
  assert (R2 : rest (eat (str "level=") st1) = y) by (apply eat_rest_app; exact P).
  rewrite bt_star_unfold, bt_level_group, R2 in H.
  rewrite R, P in E, W. apply contains_suffix, contains_head in E, W.
  change (str "level=error") with (str "level=" ++ str "error") in E.
  change (str "level=warning") with (str "level=" ++ str "warning") in W.
  rewrite is_prefix_cancel in E, W. rewrite E, W in H. cbn [orelse] in H.
  apply bt_sound in H. destruct H as (st3 & w3 & [= <-] & _ & _ & C3).
  rewrite (C3 eq_refl), eat_caps. exact C1.
Qed.

(** Such a line is filed under no level. *)
Lemma no_level_word_no_level line :
  contains (str "level=error") line = false ->
  contains (str "level=warning") line = false ->
  level_type line = None.
Proof.
  intros E W. unfold level_type.
  destruct (re_search regex_pattern_article line) as [m|] eqn:H; [|reflexivity].
  apply search_from_some in H. destruct H as (x & s' & p' & st & -> & H & C).
  unfold group. rewrite C.
  rewrite (no_level_word_no_capture p' s' st); auto; eapply contains_suffix; eauto.
Qed.

End FiledLines.

(** ** Keys and counts as text *)

Section KeyShapes.

Implicit Types (s q v : text).

Lemma digit_group_digits s d r : digit_group s = Some (d, r) -> digits13 d.
Proof.
  unfold digit_group, digits13. destruct (digit_run s) as [d' r'] eqn:E.
  destruct ((1 <=? length d') && (length d' <=? 3)) eqn:L; [|discriminate].
  intros [= <- <-]. apply andb_true_iff in L. destruct L as [L1 L2].
  apply Nat.leb_le in L1, L2. split; [apply (digit_run_spec _ _ _ E) | lia].
Qed.

Lemma dotted_group_digits s g r :
  dotted_group s = Some (g, r) -> exists d, g = d ++ str "." /\ digits13 d.
Proof.
  unfold dotted_group. destruct (digit_group s) as [[d [|c r']]|] eqn:G; try discriminate.
  destruct (Ascii.eqb "." c); [|discriminate]. intros [= <- <-].
  exists d. split; [reflexivity | apply (digit_group_digits _ _ _ G)].
Qed.

Lemma address_at_shape free p s q : address_at free p s = Some q -> quad_shape q.
Proof.
  unfold address_at, dotted_quad. destruct (free p); [|discriminate].
  destruct (dotted_group s) as [[g1 s1]|] eqn:G1; [|discriminate].
  destruct (dotted_group s1) as [[g2 s2]|] eqn:G2; [|discriminate].
  destruct (dotted_group s2) as [[g3 s3]|] eqn:G3; [|discriminate].
  destruct (digit_group s3) as [[g4 s4]|] eqn:G4; [|discriminate].
  destruct (free (hd_error s4)); [|discriminate]. intros [= <-].
  apply dotted_group_digits in G1, G2, G3. apply digit_group_digits in G4.
  destruct G1 as (d1 & -> & D1), G2 as (d2 & -> & D2), G3 as (d3 & -> & D3).
  exists d1, d2, d3, g4. rewrite <- !app_assoc. auto.
Qed.

Lemma address_scan_shape free : forall s p skip,
  Forall quad_shape (address_scan free p s skip).
Proof.
  induction s as [|c s IH]; intros p skip.
  - destruct skip; [|constructor]. cbn [address_scan].
    destruct (address_at free p []) as [q|] eqn:E; constructor.
    + apply (address_at_shape _ _ _ _ E).
    + constructor.
  - destruct skip as [|n]; [|apply IH]. cbn [address_scan].
    destruct (address_at free p (c :: s)) as [q|] eqn:E; [|apply IH].
    constructor; [apply (address_at_shape _ _ _ _ E) | apply IH].
Qed.

Lemma verb_occurrences_verbs : forall s, Forall (fun v => In v verbs) (verb_occurrences s).
Proof.
  induction s as [|c s IH]; [constructor|]. cbn [verb_occurrences].
  destruct (verb_at (c :: s)) as [v|] eqn:E; [|exact IH].
  constructor; [apply (verb_at_in _ _ E) | exact IH].
Qed.

Lemma keys_of_Counter (P : text -> Prop) l :
  Forall P l -> Forall P (keys (Counter l)).
Proof.
  intros F. rewrite Counter_keys. apply Forall_forall. intros v H.
  apply (proj1 (first_seen_In l v)) in H. rewrite Forall_forall in F. exact (F v H).
Qed.

(** The keys of the three tables have the shape of what was matched. *)
Lemma table_key_shapes blob :
  Forall quad_shape (keys (ip_count (extract blob))) /\
  Forall (fun v => In v verbs) (keys (request_count (extract blob))) /\
  Forall status_shape (keys (status_count (extract blob))).
Proof.
  unfold extract, analyze_logs. cbn [ip_count request_count status_count].
  repeat split; apply keys_of_Counter.
  - rewrite findall_ip. apply address_scan_shape.
  - rewrite findall_request. apply verb_occurrences_verbs.
  - rewrite findall_status. apply status_scan_shape.
Qed.

End KeyShapes.

Section Decimal.

Lemma digit_char_digit d : d < 10 -> is_digit (digit_char d) = true.
Proof.
  intros L. unfold is_digit, digit_char, code.
  rewrite nat_ascii_embedding by lia. unfold between.
  apply andb_true_iff. split; apply Nat.leb_le; lia.
Qed.

Lemma decimal_from_digits : forall fuel n acc,
  forallb is_digit acc = true -> forallb is_digit (decimal_from fuel n acc) = true.
Proof.
  induction fuel as [|fuel IH]; intros n acc A; cbn [decimal_from]; [exact A|].
  assert (A' : forallb is_digit (digit_char (n mod 10) :: acc) = true).
  { cbn [forallb]. rewrite digit_char_digit, A; [reflexivity|].
    apply Nat.mod_upper_bound. lia. }
  destruct (n / 10 =? 0); [exact A' | apply IH, A'].
Qed.

(** A count is written with decimal digits only. *)
Lemma decimal_digits n : forallb is_digit (decimal n) = true.
Proof. apply decimal_from_digits. reflexivity. Qed.

Lemma digit_char_value d : d < 10 -> code (digit_char d) - 48 = d.
Proof.
  intros L. unfold digit_char, code. rewrite nat_ascii_embedding by lia. lia.
Qed.

Lemma digits_fold : forall b acc,
  fold_left (fun a c => 10 * a + (code c - 48)) b acc =
    acc * 10 ^ length b + fold_left (fun a c => 10 * a + (code c - 48)) b 0.
Proof.
  induction b as [|c b IH]; intros acc; cbn [fold_left length].
  - rewrite Nat.pow_0_r. lia.
  - rewrite IH, (IH (10 * 0 + _)), Nat.pow_succ_r'. lia.
Qed.

Lemma digits_value_app a b :
  digits_value (a ++ b) = digits_value a * 10 ^ length b + digits_value b.
Proof. unfold digits_value. rewrite fold_left_app. apply digits_fold. Qed.

Lemma decimal_from_S fuel n acc :
  decimal_from (S fuel) n acc =
    if n / 10 =? 0 then digit_char (n mod 10) :: acc
    else decimal_from fuel (n / 10) (digit_char (n mod 10) :: acc).
Proof. reflexivity. Qed.

Lemma digits_value_cons d acc :
  d < 10 -> digits_value (digit_char d :: acc) = d * 10 ^ length acc + digits_value acc.
Proof.
  intros L. change (digit_char d :: acc) with ([digit_char d] ++ acc).
  rewrite digits_value_app. unfold digits_value at 1. cbn [fold_left].
  rewrite digit_char_value by exact L. lia.
Qed.

Lemma decimal_from_value : forall fuel n acc,
  n <= fuel ->
  digits_value (decimal_from (S fuel) n acc) = n * 10 ^ length acc + digits_value acc.
Proof.
  induction fuel as [|fuel IH]; intros n acc L; rewrite decimal_from_S;
    pose proof (Nat.div_mod_eq n 10) as E;
    pose proof (Nat.mod_upper_bound n 10 ltac:(lia)) as U;
    destruct (n / 10 =? 0) eqn:Q.
  - apply Nat.eqb_eq in Q. rewrite digits_value_cons by exact U.
    replace (n mod 10) with n by lia. reflexivity.
  - apply Nat.eqb_neq in Q. lia.
  - apply Nat.eqb_eq in Q. rewrite digits_value_cons by exact U.
    replace (n mod 10) with n by lia. reflexivity.
  - apply Nat.eqb_neq in Q. rewrite IH by lia.
    rewrite digits_value_cons by exact U. cbn [length].
    rewrite Nat.pow_succ_r'.
    replace (n * 10 ^ length acc)
      with ((10 * (n / 10) + n mod 10) * 10 ^ length acc) by (f_equal; lia).
    generalize (10 ^ length acc) (n / 10) (n mod 10). intros P q r. nia.
Qed.

(** The digits written for a count read back as that count. *)
Lemma decimal_value n : digits_value (decimal n) = n.
Proof.
  unfold decimal. rewrite decimal_from_value by lia.
  cbn [length]. rewrite Nat.pow_0_r. unfold digits_value. cbn [fold_left]. lia.
Qed.

End Decimal.

(** ** The report and the files *)

Section Report.

Implicit Types (s k : text) (c : counter).

Lemma line_feeds_app s t : line_feeds (s ++ t) = line_feeds s + line_feeds t.
Proof. apply count_occ_app. Qed.

Lemma digits_no_feed s : forallb is_digit s = true -> line_feeds s = 0.
Proof.
  intros D. apply count_occ_not_In. intros H.
  rewrite forallb_forall in D. apply D in H. discriminate H.
Qed.

Lemma digits13_no_feed d : digits13 d -> line_feeds d = 0.
Proof. intros [D _]. apply digits_no_feed, D. Qed.

Lemma quad_no_feed q : quad_shape q -> line_feeds q = 0.
Proof.
  intros (d1 & d2 & d3 & d4 & -> & D1 & D2 & D3 & D4).
  rewrite !line_feeds_app.
  rewrite (digits13_no_feed d1 D1), (digits13_no_feed d2 D2),
    (digits13_no_feed d3 D3), (digits13_no_feed d4 D4).
  reflexivity.
Qed.

Lemma verb_no_feed v : In v verbs -> line_feeds v = 0.
Proof.
  intros V. apply verbs_cases in V. destruct V as [-> | [-> | [-> | ->]]]; reflexivity.
Qed.

Lemma status_no_feed v : status_shape v -> line_feeds v = 0.
Proof.
  intros (d1 & d2 & d3 & -> & D1 & D2 & D3). apply digits_no_feed.
  cbn [forallb]. rewrite D1, D2, D3. reflexivity.
Qed.

(** A table whose values hold no line feed is listed one entry per
    line. *)
Lemma listing_lines c :
  Forall (fun k => line_feeds k = 0) (keys c) -> line_feeds (listing c) = length c.
Proof.
  unfold listing, keys. induction c as [|[k n] c IH]; intros F; [reflexivity|].
  cbn [map] in F. inversion F as [|? ? Fk Fc]; subst.
  cbn [map concat length]. rewrite line_feeds_app, (IH Fc).
  unfold count_line. cbn [fst snd]. rewrite !line_feeds_app, Fk.
  rewrite (digits_no_feed _ (decimal_digits n)). reflexivity.
Qed.

Lemma report_lines blob :
  line_feeds (report (extract blob)) =
    5 + length (ip_count (extract blob))
      + length (request_count (extract blob))
      + length (status_count (extract blob)).
Proof.
  destruct (table_key_shapes blob) as (Fi & Fr & Fs).
  unfold report. rewrite !line_feeds_app, !listing_lines.
  - change (line_feeds []) with 0.
    change (line_feeds (str "IP Address Counts:")) with 0.
    change (line_feeds (str "Request Type Counts:")) with 0.
    change (line_feeds (str "Status Code Counts:")) with 0.
    change (line_feeds [LF]) with 1. lia.
  - eapply Forall_impl; [|exact Fs]. apply status_no_feed.
  - eapply Forall_impl; [|exact Fr]. apply verb_no_feed.
  - eapply Forall_impl; [|exact Fi]. apply quad_no_feed.
Qed.

End Report.

Section Files.

Implicit Types (w : world) (p q a path out e : text) (d : list (text * nat)) (i j : nat).

Lemma linked_unused e d i : linked e d = Some i -> i < unused d.
Proof.
  unfold unused. induction d as [|[e' j] d IH]; [discriminate|].
  cbn [linked fold_right snd]. destruct (text_eqb e e').
  - intros [= ->]. lia.
  - intros H. apply IH in H. lia.
Qed.

Lemma linked_removed e d :
  linked e (filter (fun ei => negb (text_eqb (fst ei) e)) d) = None.
Proof.
  induction d as [|[e' j] d IH]; [reflexivity|]. cbn [filter fst].
  destruct (text_eqb e' e) eqn:E; cbn [negb]; [exact IH|].
  cbn [linked]. replace (text_eqb e e') with false; [exact IH|].
  symmetry. apply text_eqb_neq. apply text_eqb_neq in E. congruence.
Qed.

Lemma linked_kept e e' d :
  e' <> e -> linked e' (filter (fun ei => negb (text_eqb (fst ei) e)) d) = linked e' d.
Proof.
  intros N. induction d as [|[e0 j] d IH]; [reflexivity|]. cbn [filter fst].
  destruct (text_eqb e0 e) eqn:E; cbn [negb linked].
  - apply text_eqb_eq in E. subst e0. apply text_eqb_neq in N. rewrite N. exact IH.
  - rewrite IH. reflexivity.
Qed.

Lemma fs_print line w p : fs (print line w) p = fs w p.
Proof. reflexivity. Qed.

(** Two paths that spell one entry show the same content. *)
Lemma fs_alias w p path : spells w p = spells w path -> fs w p = fs w path.
Proof. intros E. unfold fs. rewrite E. reflexivity. Qed.

Lemma apart_ext w w' p q :
  spells w' = spells w -> dir w' = dir w -> apart w p q -> apart w' p q.
Proof. unfold apart. intros -> ->. auto. Qed.

Lemma fs_write_touches a content w : touches a w (fs_write a content w).
Proof.
  unfold touches, fs_write. destruct (linked (spells w a) (dir w)) as [i|] eqn:L;
    cbn [spells dir].
  - split; [reflexivity|]. split; [reflexivity|]. intros j H. left. congruence.
  - split; [reflexivity|]. split.
    + intros e N. cbn [linked]. apply text_eqb_neq in N. rewrite N. reflexivity.
    + intros j. cbn [linked]. rewrite text_eqb_refl. intros [= <-]. right. lia.
Qed.

Lemma fs_remove_touches a w : touches a w (fs_remove a w).
Proof.
  unfold touches, fs_remove. cbn [spells dir]. repeat split.
  - intros e N. apply linked_kept, N.
  - intros i. rewrite linked_removed. discriminate.
Qed.

Lemma print_touches a line w : touches a w (print line w).
Proof. unfold touches, print. cbn [spells dir]. repeat split; auto. Qed.

Lemma touches_print a line w w' : touches a w w' -> touches a w (print line w').
Proof. exact (fun H => H). Qed.

(** Paths apart before a step at a third path are apart after it. *)
Lemma apart_kept a w w' p q :
  touches a w w' -> spells w p <> spells w a -> spells w q <> spells w a ->
  apart w p q -> apart w' p q.
Proof.
  intros (E & O & _) Np Nq [N S]. unfold apart. rewrite E, (O _ Np), (O _ Nq). auto.
Qed.

(** The path of the step stays apart from what it was apart from. *)
Lemma apart_touched a w w' q : touches a w w' -> apart w a q -> apart w' a q.
Proof.
  intros (E & O & F) [N S]. unfold apart. rewrite E. split; [exact N|].
  intros i L. rewrite (O (spells w q)) by congruence.
  destruct (F i L) as [L0 | U]; [apply S, L0|].
  intros Q. apply linked_unused in Q. lia.
Qed.

Lemma apart_sym w p q : apart w p q -> apart w q p.
Proof.
  intros [N S]. split; [congruence|]. intros i L Q. exact (S i Q L).
Qed.

Lemma fs_write_same path content w : fs (fs_write path content w) path = Some content.
Proof.
  unfold fs, fs_write. destruct (linked (spells w path) (dir w)) as [i|] eqn:L;
    cbn [spells dir data linked].
  - rewrite L. cbn [option_map]. rewrite Nat.eqb_refl. reflexivity.
  - rewrite text_eqb_refl. cbn [option_map]. rewrite Nat.eqb_refl. reflexivity.
Qed.

Lemma fs_write_other path content w p :
  apart w p path -> fs (fs_write path content w) p = fs w p.
Proof.
  intros [N S]. unfold fs, fs_write.
  destruct (linked (spells w path) (dir w)) as [i|] eqn:L; cbn [spells dir data linked].
  - destruct (linked (spells w p) (dir w)) as [j|] eqn:Lp; [|reflexivity].
    cbn [option_map]. replace (j =? i) with false; [reflexivity|].
    symmetry. apply Nat.eqb_neq. intros ->. exact (S i eq_refl eq_refl).
  - apply text_eqb_neq in N. rewrite N.
    destruct (linked (spells w p) (dir w)) as [j|] eqn:Lp; [|reflexivity].
    cbn [option_map]. apply linked_unused in Lp.
    replace (j =? unused (dir w)) with false; [reflexivity|].
    symmetry. apply Nat.eqb_neq. lia.
Qed.

Lemma fs_remove_same path w : fs (fs_remove path w) path = None.
Proof. unfold fs, fs_remove. cbn [spells dir]. rewrite linked_removed. reflexivity. Qed.

Lemma fs_remove_other path w p :
  spells w p <> spells w path -> fs (fs_remove path w) p = fs w p.
Proof.
  intros N. unfold fs, fs_remove. cbn [spells dir data]. rewrite linked_kept by exact N.
  reflexivity.
Qed.

(** What one save-or-remove step leaves at its output path; it leaves
    every path apart from that one as it was. *)
Lemma save_or_remove_fs kind found source out w :
  fs (save_or_remove kind found source out w) out
    = match found with [] => None | _ :: _ => Some (unlines found) end /\
  (forall p, apart w p out -> fs (save_or_remove kind found source out w) p = fs w p) /\
  touches out w (save_or_remove kind found source out w).
Proof.
  unfold save_or_remove, save_messages. destruct found as [|m ms].
  - rewrite fs_print. destruct (fs w out) eqn:E.
    + split; [apply fs_remove_same | split; [|exact (fs_remove_touches out (print _ w))]].
      intros p [N _]. rewrite fs_remove_other by exact N. apply fs_print.
    + split; [rewrite fs_print; exact E | split; [reflexivity | apply print_touches]].
  - rewrite fs_print. split; [apply fs_write_same | split].
    + intros p N. rewrite fs_print. apply fs_write_other, N.
    + apply touches_print, fs_write_touches.
Qed.

Lemma parse_log_file_at_result source w :
  fst (parse_log_file_at source w) = parse_log_file (fs w source) /\
  (forall p, fs (snd (parse_log_file_at source w)) p = fs w p) /\
  spells (snd (parse_log_file_at source w)) = spells w /\
  dir (snd (parse_log_file_at source w)) = dir w.
Proof.
  unfold parse_log_file_at. destruct (fs w source); repeat split; reflexivity.
Qed.

Lemma run_parser_fs source eo wo w :
  apart w eo wo ->
  fs (run_parser source eo wo w) eo
    = match fst (parse_log_file (fs w source)) with
      | [] => None
      | _ :: _ => Some (unlines (fst (parse_log_file (fs w source))))
      end /\
  fs (run_parser source eo wo w) wo
    = match snd (parse_log_file (fs w source)) with
      | [] => None
      | _ :: _ => Some (unlines (snd (parse_log_file (fs w source))))
      end /\
  forall p, apart w p eo -> apart w p wo -> fs (run_parser source eo wo w) p = fs w p.
Proof.
  intros N. unfold run_parser.
  set (w0 := print (str "Processing " ++ source ++ str "...") w).
  destruct (parse_log_file_at_result source w0) as (R & F & P & D).
  destruct (parse_log_file_at source w0) as [[es ws] w1]. cbn [fst snd] in R, F, P, D.
  change (spells w0) with (spells w) in P. change (dir w0) with (dir w) in D.
  change (fs w0 source) with (fs w source) in R. rewrite <- R. cbn [fst snd].
  assert (X : forall p q, apart w p q -> apart w1 p q)
    by (intros p q; apply apart_ext; assumption).
  destruct (save_or_remove_fs "errors" es source eo w1) as (W1 & O1 & T1).
  destruct (save_or_remove_fs "warnings" ws source wo
              (save_or_remove "errors" es source eo w1)) as (W2 & O2 & _).
  cbv zeta. rewrite !fs_print. split; [|split].
  - exact (eq_trans (O2 eo (apart_touched _ _ _ _ T1 (X _ _ N))) W1).
  - exact W2.
  - intros p Pe Pw.
    assert (A2 : apart (save_or_remove "errors" es source eo w1) p wo).
    { apply (apart_kept eo w1); [exact T1 | rewrite P; apply Pe
                                | rewrite P; apply (apart_sym _ _ _ N) | exact (X _ _ Pw)]. }
    exact (eq_trans (O2 p A2) (eq_trans (O1 p (X _ _ Pe)) (F p))).
Qed.

Lemma run_parser_spells source eo wo w :
  spells (run_parser source eo wo w) = spells w.
Proof.
  unfold run_parser.
  set (w0 := print (str "Processing " ++ source ++ str "...") w).
  destruct (parse_log_file_at_result source w0) as (_ & _ & P & _).
  destruct (parse_log_file_at source w0) as [[es ws] w1]. cbn [snd] in P.
  destruct (save_or_remove_fs "errors" es source eo w1) as (_ & _ & P1 & _).
  destruct (save_or_remove_fs "warnings" ws source wo
              (save_or_remove "errors" es source eo w1)) as (_ & _ & P2 & _).
  cbv zeta. unfold print at 1. cbn [spells]. rewrite P2, P1, P. reflexivity.
Qed.

(** When both output paths spell one entry, the warnings step, which
    runs last, decides what is found there. *)
Lemma run_parser_shared_output source eo wo w :
  spells w eo = spells w wo ->
  fs (run_parser source eo wo w) eo
    = match snd (parse_log_file (fs w source)) with
      | [] => None
      | _ :: _ => Some (unlines (snd (parse_log_file (fs w source))))
      end.
Proof.
  intros E. rewrite (fs_alias _ eo wo) by (rewrite run_parser_spells; exact E).
  unfold run_parser.
  set (w0 := print (str "Processing " ++ source ++ str "...") w).
  destruct (parse_log_file_at_result source w0) as (R & _ & _).
  destruct (parse_log_file_at source w0) as [[es ws] w1]. cbn [fst] in R.
  change (fs w0 source) with (fs w source) in R. rewrite <- R. cbn [snd].
  destruct (save_or_remove_fs "warnings" ws source wo
              (save_or_remove "errors" es source eo w1)) as (W2 & _ & _).
  cbv zeta. rewrite fs_print. exact W2.
Qed.

End Files.

(** ** The article's pattern and its direct reading *)

Section Reading.

Implicit Types (s tail line : text) (st : mstate).

Lemma failure_follows_spec s :
  failure_follows s = true <->
  exists mid kw post,
    s = mid ++ kw ++ post /\ forallb filler mid = true /\
    (kw = str "failed" \/ kw = str "Failed").
Proof.
  split.
  - induction s as [|c s IH]; intros H; cbn [failure_follows] in H.
    + discriminate.
    + apply orb_true_iff in H. destruct H as [H | H].
      * apply orb_true_iff in H.
        destruct H as [H | H]; apply is_prefix_spec in H; destruct H as [y H];
          exists [], (firstn 6 (c :: s)), y; rewrite H; auto.
      * apply andb_true_iff in H. destruct H as [C H].
        destruct (IH H) as (mid & kw & post & -> & F & K).
        exists (c :: mid), kw, post. cbn [forallb app]. rewrite C, F. auto.
  - intros (mid & kw & post & -> & F & K). induction mid as [|c mid IH].
    + destruct K as [-> | ->]; reflexivity.
    + cbn [forallb] in F. apply andb_true_iff in F. destruct F as [C F].
      cbn [app failure_follows]. rewrite C, (IH F). cbn [andb].
      apply orb_true_r.
Qed.

Lemma failure_follows_level w tail :
  w = str "warning" \/ w = str "error" ->
  failure_follows (w ++ tail) = failure_follows tail.
Proof. intros [-> | ->]; reflexivity. Qed.

Lemma level_run_level w tail last :
  w = str "warning" \/ w = str "error" ->
  level_run (w ++ tail) 0 last = level_run tail 0 (Some w).
Proof. intros [-> | ->]; destruct tail; reflexivity. Qed.

Lemma level_run_stop s last :
  is_prefix (str "warning") s = false ->
  is_prefix (str "error") s = false ->
  level_run s 0 last = last.
Proof. intros W E. destruct s; cbn [level_run]; [reflexivity|]. rewrite W, E. reflexivity. Qed.

(** The rest of the pattern after the level group *)
Lemma failure_tail_none st :
  failure_follows (rest st) = false ->
  bt (seqs failure_tail) st (fun st' => Some st') = None.
Proof.
  intros N. destruct (bt (seqs failure_tail) st (fun st' => Some st')) as [x|] eqn:H;
    [exfalso | reflexivity].
  apply bt_sound in H. destruct H as (st' & w & _ & R & D & _).
  unfold failure_tail in D. cbn [seqs denote] in D.
  destruct D as (w4 & t4 & -> & D4 & w5 & t5 & -> & D5 & w6 & w7 & -> & D6 & D7).
  apply denote_lit in D7. subst w7.
  destruct D6 as (c & -> & C). apply class_fF in C.
  assert (T : failure_follows (rest st) = true); [|congruence].
  apply failure_follows_spec.
  exists (w4 ++ w5), (c :: str "ailed"), (rest st'). split; [|split].
  - rewrite R, <- !app_assoc. reflexivity.
  - assert (F5 : forallb filler w5 = true) by exact (star_class_denote _ w5 D5).
    assert (F4 : forallb filler w4 = true).
    { apply forallb_forall. intros a A. apply word_is_filler.
      pose proof (star_class_denote _ w4 D4) as F4.
      rewrite forallb_forall in F4. auto. }
    rewrite forallb_app, F4, F5. reflexivity.
  - destruct C as [-> | ->]; auto.
Qed.

Lemma failure_tail_some st :
  failure_follows (rest st) = true ->
  exists st_f,
    bt (seqs failure_tail) st (fun st' => Some st') = Some st_f /\
    caps st_f = caps st.
Proof.
  intros T. apply failure_follows_spec in T.
  destruct T as (mid & kw & post & R & F & K).
  exact (failure_tail_found mid kw post st R F K).
Qed.

(** The level group, repeated, then the rest of the pattern: a success
    exactly when the failure word follows, and then the group holds
    the last word of the run of level words. *)
Lemma level_star_reads : forall n st,
  length (rest st) <= n ->
  let o := bt (Star level_group) st
             (fun st1 => bt (seqs failure_tail) st1 (fun st' => Some st')) in
  if failure_follows (rest st)
  then exists st_f,
         o = Some st_f /\
         lookup_group 1 (caps st_f) = level_run (rest st) 0 (lookup_group 1 (caps st))
  else o = None.
Proof.
  induction n as [|n IH]; intros st L o; subst o;
    rewrite bt_star_unfold, bt_level_group.
  - destruct (rest st) as [|c s] eqn:R; [|simpl in L; lia].
    cbn [is_prefix orelse]. 
    destruct (failure_follows []) eqn:T; [discriminate|].
    apply failure_tail_none. rewrite R. reflexivity.
  - assert (Step : forall w tail, w = str "warning" \/ w = str "error" ->
               rest st = w ++ tail ->
               if failure_follows (rest st)
               then exists st_f,
                   orelse (bt (Star level_group) (capture w st)
                             (fun st1 => bt (seqs failure_tail) st1 (fun st' => Some st')))
                          (bt (seqs failure_tail) st (fun st' => Some st')) = Some st_f /\
                   lookup_group 1 (caps st_f)
                     = level_run (rest st) 0 (lookup_group 1 (caps st))
               else
                   orelse (bt (Star level_group) (capture w st)
                             (fun st1 => bt (seqs failure_tail) st1 (fun st' => Some st')))
                          (bt (seqs failure_tail) st (fun st' => Some st')) = None).
    { intros w tail Hw R.
      assert (L' : length (rest (capture w st)) <= n).
      { rewrite (capture_rest w tail st R). rewrite R, length_app in L.
        destruct Hw as [-> | ->]; simpl in L; lia. }
      pose proof (IH (capture w st) L') as H. cbv zeta in H.
      rewrite (capture_rest w tail st R), (capture_group w tail st R) in H.
      assert (FF : failure_follows (rest st) = failure_follows tail)
        by (rewrite R; apply failure_follows_level, Hw).
      rewrite FF.
      destruct (failure_follows tail) eqn:T.
      - destruct H as (st_f & -> & G). exists st_f. split; [reflexivity|].
        rewrite G, R. symmetry. apply level_run_level, Hw.
      - rewrite H. cbn [orelse]. apply failure_tail_none. exact FF. }
    destruct (is_prefix (str "warning") (rest st)) eqn:W.
    + apply is_prefix_spec in W. destruct W as [tail R].
      rewrite (capture_shorter _ tail st R) by discriminate.
      replace (is_prefix (str "error") (rest st)) with false
        by (rewrite R; reflexivity).
      rewrite orelse_none_r.
      apply (Step (str "warning") tail); auto.
    + cbn [orelse]. destruct (is_prefix (str "error") (rest st)) eqn:E.
      * apply is_prefix_spec in E. destruct E as [tail R].
        rewrite (capture_shorter _ tail st R) by discriminate.
        apply (Step (str "error") tail); auto.
      * cbn [orelse]. destruct (failure_follows (rest st)) eqn:T.
        -- destruct (failure_tail_some st T) as (st_f & -> & C).
           exists st_f. split; [reflexivity|].
           rewrite C, (level_run_stop _ _ W E). reflexivity.
        -- apply failure_tail_none, T.
Qed.


Lemma article_here p s :
  match_here regex_pattern_article p s =
    if is_prefix (str "level=") s
    then bt (Star level_group) (eat (str "level=") (MState p s []))
           (fun st1 => bt (seqs failure_tail) st1 (fun st' => Some st'))
    else match s with
         | c :: s' =>
             if is_word c then match_here regex_pattern_article (Some c) s' else None
         | [] => None
         end.
Proof.
  unfold match_here.
  change (bt regex_pattern_article (MState p s []) (fun st' => Some st'))
    with (bt (Star (Class [CWord])) (MState p s []) (fun st1 =>
          bt (lit (str "level=")) st1 (fun st2 =>
          bt (Star level_group) st2 (fun st3 =>
          bt (seqs failure_tail) st3 (fun st' => Some st'))))).
  destruct (is_prefix (str "level=") s) eqn:P.
  - apply is_prefix_spec in P. destruct P as [tail ->].
    exact (star_word_marker
             (fun st2 => bt (Star level_group) st2 (fun st3 =>
                         bt (seqs failure_tail) st3 (fun st' => Some st')))
             (MState p (str "level=" ++ tail) []) tail eq_refl).
  - rewrite bt_star_class. cbn [rest caps]. rewrite bt_lit. cbn [rest]. rewrite P.
    destruct s as [|c s']; [reflexivity|].
    replace (class_mem [CWord] c) with (is_word c)
      by (unfold class_mem; cbn [existsb cset_mem]; rewrite orb_false_r; reflexivity).
    destruct (is_word c); [|reflexivity]. rewrite orelse_none_r.
    change (bt regex_pattern_article (MState (Some c) s' []) (fun st' => Some st'))
      with (bt (Star (Class [CWord])) (MState (Some c) s' []) (fun st1 =>
            bt (lit (str "level=")) st1 (fun st2 =>
            bt (Star level_group) st2 (fun st3 =>
            bt (seqs failure_tail) st3 (fun st' => Some st'))))).
    reflexivity.
Qed.

(** At the marker: a match exactly when the failure word follows, and
    then group 1 is the level read after the marker. *)
Lemma article_at_marker p s :
  is_prefix (str "level=") s = true ->
  if failure_follows (skipn 6 s)
  then exists st_f,
         match_here regex_pattern_article p s = Some st_f /\
         lookup_group 1 (caps st_f) = level_run (skipn 6 s) 0 None
  else match_here regex_pattern_article p s = None.
Proof.
  intros P. rewrite article_here, P.
  pose proof (level_star_reads _ (eat (str "level=") (MState p s [])) (le_n _)) as H.
  cbv zeta in H. rewrite eat_rest, eat_caps in H. exact H.
Qed.

(** The search and the reading agree on whether there is a match and
    on its group 1. *)
Lemma search_reads : forall s pos p,
  option_map (group 1) (search_from regex_pattern_article pos p s) = read_match s.
Proof.
  induction s as [|c s IH]; intros pos p.
  - rewrite search_from_eq, article_here. reflexivity.
  - rewrite search_from_eq. cbn [read_match].
    destruct (is_prefix (str "level=") (c :: s)) eqn:P.
    + pose proof (article_at_marker p (c :: s) P) as H. cbn [andb].
      destruct (failure_follows (skipn 6 (c :: s))).
      * destruct H as (st_f & -> & G). cbn [option_map]. unfold group. cbn [m_caps].
        rewrite G. reflexivity.
      * rewrite H. apply IH.
    + cbn [andb]. rewrite article_here, P.
      destruct (is_word c); [|apply IH].
      rewrite <- (IH (S pos) (Some c)). rewrite (search_from_eq _ (S pos) (Some c) s).
      destruct (match_here regex_pattern_article (Some c) s); reflexivity.
Qed.

Lemma level_type_reads line : level_type line = read_level line.
Proof.
  unfold level_type, read_level, re_search. rewrite <- (search_reads line 0 None).
  destruct (search_from regex_pattern_article 0 None line); reflexivity.
Qed.

Lemma level_is_reads lv line : level_is lv line = reads_as lv line.
Proof. unfold level_is, reads_as. rewrite level_type_reads. reflexivity. Qed.

End Reading.

(** ** Lines as slices between line breaks *)

Section Slices.

Implicit Types (s u x cur : text) (c : ascii).

Lemma lstrip_slice s : lstrip s = skipn (leading_spaces s) s.
Proof.
  induction s as [|c s IH]; [reflexivity|]. cbn [lstrip leading_spaces].
  destruct (is_space c); [exact IH | reflexivity].
Qed.

Lemma lstrip_all_space x : forallb is_space x = true -> lstrip x = [].
Proof.
  induction x as [|a x IH]; [reflexivity|]. cbn [forallb lstrip].
  intros H. apply andb_true_iff in H. destruct H as [-> H]. auto.
Qed.

Lemma lstrip_app_one x c :
  lstrip (x ++ [c]) = if forallb is_space x then lstrip [c] else lstrip x ++ [c].
Proof.
  induction x as [|a x IH]; [reflexivity|]. cbn [app lstrip forallb].
  destruct (is_space a); [exact IH | reflexivity].
Qed.

Lemma forallb_rev (f : ascii -> bool) x : forallb f (rev x) = forallb f x.
Proof.
  induction x as [|a x IH]; [reflexivity|]. cbn [rev forallb].
  rewrite forallb_app, IH. cbn [forallb]. rewrite andb_true_r. apply andb_comm.
Qed.

Lemma rstrip_cons c u :
  rstrip (c :: u) = if forallb is_space (c :: u) then [] else c :: rstrip u.
Proof.
  unfold rstrip. cbn [rev forallb]. rewrite lstrip_app_one, forallb_rev.
  destruct (forallb is_space u) eqn:A.
  - rewrite andb_true_r. cbn [lstrip].
    destruct (is_space c); [reflexivity|].
    rewrite lstrip_all_space by (rewrite forallb_rev; exact A). reflexivity.
  - rewrite andb_false_r, rev_app_distr. reflexivity.
Qed.

Lemma trailing_spaces_le u : trailing_spaces u <= length u.
Proof.
  induction u as [|c u IH]; [reflexivity|]. cbn [trailing_spaces length].
  destruct (forallb is_space (c :: u)); lia.
Qed.

Lemma rstrip_slice u : rstrip u = firstn (length u - trailing_spaces u) u.
Proof.
  induction u as [|c u IH]; [reflexivity|].
  rewrite rstrip_cons. cbn [trailing_spaces length].
  destruct (forallb is_space (c :: u)).
  - rewrite Nat.sub_diag. reflexivity.
  - pose proof (trailing_spaces_le u) as L.
    replace (S (length u) - trailing_spaces u) with (S (length u - trailing_spaces u)) by lia.
    cbn [firstn]. rewrite IH. reflexivity.
Qed.

(** [strip] takes the slice between the leading and the trailing
    whitespace. *)
Lemma strip_trim s : strip s = trim s.
Proof. unfold strip, trim. rewrite rstrip_slice, lstrip_slice. reflexivity. Qed.

(** The lines of a file, trimmed, are the pieces between line breaks,
    trimmed, when blank ones are left aside: a carriage return before
    a line feed only adds a blank piece. *)
Lemma lines_pieces : forall n s cur,
  length s <= n ->
  filter nonblank (map strip (readlines_from cur (universal_newlines s)))
    = filter nonblank (map strip (pieces_from cur s)).
Proof.
  induction n as [|n IH]; intros s cur L.
  - destruct s; [|simpl in L; lia]. destruct cur; reflexivity.
  - destruct s as [|c s]; [destruct cur; reflexivity|].
    cbn [length] in L. cbn [universal_newlines pieces_from]. unfold is_break.
    destruct (Ascii.eqb c CR) eqn:Ec.
    + apply Ascii.eqb_eq in Ec. subst c.
      change (Ascii.eqb CR LF) with false. cbn [orb readlines_from].
      change (Ascii.eqb LF LF) with true. cbv iota.
      cbn [map filter]. rewrite strip_line_feed.
      destruct s as [|c' s'].
      * destruct (nonblank (strip cur)); reflexivity.
      * destruct (Ascii.eqb c' LF) eqn:El.
        -- apply Ascii.eqb_eq in El. subst c'.
           cbn [pieces_from]. change (is_break LF) with true. cbv iota.
           cbn [map filter]. change (nonblank (strip [])) with false. cbv iota.
           rewrite (IH s' []) by (simpl in L; lia). reflexivity.
        -- rewrite (IH (c' :: s') []) by lia. reflexivity.
    + rewrite orb_false_r. cbn [readlines_from].
      destruct (Ascii.eqb c LF) eqn:El.
      * apply Ascii.eqb_eq in El. subst c. cbn [map filter].
        rewrite strip_line_feed, (IH s []) by lia. reflexivity.
      * apply IH. lia.
Qed.

Lemma trimmed_lines_read blob : trimmed_lines blob = text_lines blob.
Proof.
  unfold trimmed_lines, text_lines, file_lines.
  rewrite (lines_pieces _ blob [] (le_n _)).
  f_equal. apply map_ext. exact strip_trim.
Qed.

End Slices.

(** ** Matches at every position *)

Section EveryPosition.

Implicit Types (s v : text).

(** A verb cannot begin inside another match of the verb pattern, so
    the matches position by position are the verbs the scan finds. *)
Lemma every_match_request : forall s p,
  every_match_from request_pattern p s = verb_occurrences s.
Proof.
  induction s as [|c s IH]; intros p; [reflexivity|].
  cbn [every_match_from verb_occurrences]. unfold match_value.
  rewrite match_here_request, IH.
  destruct (verb_at (c :: s)) as [v|] eqn:E; [|reflexivity].
  destruct (verb_at_in _ _ E) as [_ [y S]]. injection S as -> ->.
  rewrite findall_item_request. unfold group. cbn [m_caps tl].
  rewrite (capture_group v y) by reflexivity. reflexivity.
Qed.

End EveryPosition.

(** * The claims *)

(** The run the notebook records for [log1.txt]: one error, four
    warnings, in the order of the file. *)
Example log1_run :
  classify (join_lines log1_lines) =
    ([nth 2 log1_lines []],
     [nth 4 log1_lines []; nth 5 log1_lines []; nth 6 log1_lines [];
      nth 8 log1_lines []]).
Proof. vm_compute. reflexivity. Qed.

(** C1, as stated, fails: a non-blank line with [level=error] and a
    later [failed] is filed nowhere when the text in between holds a
    character the pattern does not admit (here [/]). *)
Lemma C1_counterexample_device_line :
  strip device_line = device_line /\
  nonblank device_line = true /\
  device_line =
    str "level=" ++ str "error" ++ (str " msg=" ++ dq :: str "write to /dev/sda1 ")
    ++ str "failed" ++ [dq] /\
  classify device_line = ([], []).
Proof. vm_compute. auto. Qed.

(** C1, amended: a line whose first [level=] marker carries [error] or
    [warning], with no further level word right after it, and then --
    after text made only of word characters, spaces, [=], double
    quotes and dots -- [failed] or [Failed], is appended, trimmed, to
    the list named by the level. *)
Theorem C1_failure_line_is_filed :
  forall (raw pre lv mid kw post : text) (errors warnings : list text),
    strip raw = pre ++ str "level=" ++ lv ++ mid ++ kw ++ post ->
    lv = str "error" \/ lv = str "warning" ->
    kw = str "failed" \/ kw = str "Failed" ->
    contains (str "level=") (pre ++ str "level") = false ->
    forallb filler mid = true ->
    is_prefix (str "warning") (mid ++ kw ++ post) = false ->
    is_prefix (str "error") (mid ++ kw ++ post) = false ->
    classify_line (errors, warnings) raw =
      if text_eqb lv (str "error")
      then (errors ++ [strip raw], warnings)
      else (errors, warnings ++ [strip raw]).
Proof.
  intros raw pre lv mid kw post errors warnings R Hlv Hkw First Hmid Hw He.
  pose proof (level_type_found lv mid kw post Hlv Hkw Hmid Hw He pre First) as L.
  rewrite <- R in L. rewrite classify_line_eq. unfold kept, level_is. rewrite L.
  assert (N : nonblank (strip raw) = true).
  { rewrite R. destruct pre; reflexivity. }
  rewrite N. cbn [andb].
  destruct Hlv as [-> | ->]; cbn; rewrite ?app_nil_r; reflexivity.
Qed.

(** The error line of [log1.txt], read with its line feed, goes to the
    error list. *)
Lemma C1_witness_database_line :
  classify_line ([], []) (database_line ++ [LF]) = ([database_line], []).
Proof.
  exact (C1_failure_line_is_filed
           (database_line ++ [LF])
           (str "time=" ++ quoted "2020-03-18T14:40:30Z" ++ str " ")
           (str "error")
           (str " msg=" ++ dq :: str "Database stream initialisation ")
           (str "failed")
           (str ". Have you tried installing the WAL2JASON plugin?" ++ dq
              :: str " file=" ++ quoted "corp/application1/task1.go:96"
              ++ str " func=" ++ quoted task1 ++ str " kind=application")
           [] [] eq_refl (or_introl eq_refl) (or_introl eq_refl)
           eq_refl eq_refl eq_refl eq_refl).
Defined.

(** C2, as stated, fails: a status code that begins at the whitespace
    which closed the code before it is a match of the pattern, and is
    not counted.  In [two_codes] the pattern matches at [ 512] and the
    table has no entry for 512; in [three_codes] it matches 200 at
    three positions and the table says two. *)
Lemma C2_counterexample_shared_space :
  tally (str "512") (every_match status_pattern two_codes) = Some 1 /\
  counter_get (str "512") (status_count (extract two_codes)) = None /\
  tally (str "200") (every_match status_pattern three_codes) = Some 3 /\
  counter_get (str "200") (status_count (extract three_codes)) = Some 2.
Proof. vm_compute. auto. Qed.

(** C2, amended: each table maps a value to the number of times the
    scan from left to right finds it -- a scan that, after an address
    or a status code, resumes where that match ended -- and has no
    entry for a value the scan does not find; the entries stand in the
    order in which the values are first found.  A verb is found at
    every position at which the verb pattern matches. *)
Theorem C2_tables_count_scanned_matches :
  forall blob v : text,
    counter_get v (ip_count (extract blob)) = tally v (addresses blob) /\
    counter_get v (request_count (extract blob)) = tally v (verb_occurrences blob) /\
    counter_get v (status_count (extract blob)) = tally v (status_scan blob 0) /\
    keys (ip_count (extract blob)) = first_seen (addresses blob) /\
    keys (request_count (extract blob)) = first_seen (verb_occurrences blob) /\
    keys (status_count (extract blob)) = first_seen (status_scan blob 0) /\
    counter_get v (request_count (extract blob))
      = tally v (every_match request_pattern blob).
Proof.
  intros blob v. unfold extract, analyze_logs, every_match.
  cbn [ip_count request_count status_count].
  rewrite !Counter_get, !Counter_keys, findall_ip, findall_request, findall_status,
    every_match_request.
  repeat split.
Qed.

(** C3, as stated, fails: nothing computed from the two lists tells
    how many lines the blob had. *)
Lemma C3_counterexample_line_count_hidden :
  ~ exists observe : buckets -> nat,
      forall blob, observe (classify blob) = length (file_lines blob).
Proof.
  intros [observe H].
  pose proof (H []) as H0. pose proof (H [LF]) as H1.
  vm_compute in H0, H1. congruence.
Qed.

(** C3, amended: the caller sees the two lists only.  Together they
    hold at most as many lines as the blob has non-blank lines, and one
    more blank line in the blob changes the number of lines read but
    not the result. *)
Theorem C3_only_the_lists_are_observable :
  forall blob : text,
    length (fst (classify blob)) + length (snd (classify blob))
      <= length (trimmed_lines blob) /\
    length (trimmed_lines blob) <= length (file_lines blob) /\
    classify (LF :: blob) = classify blob /\
    length (file_lines (LF :: blob)) = S (length (file_lines blob)).
Proof.
  intros blob. rewrite classify_eq. cbn [fst snd]. repeat split.
  - apply filter_disjoint_length. apply level_error_not_warning.
  - unfold trimmed_lines. rewrite <- (length_map strip (file_lines blob)).
    apply filter_length_le.
  - rewrite classify_eq. unfold trimmed_lines. rewrite file_lines_blank_first.
    reflexivity.
Qed.

(** C4, as stated, fails: a dot may bound an address and a letter may
    not.  In [address_note] the code counts the address before the full
    stop and not the one after the letter; the reading "bounded by
    non-digit, non-dot context" counts the other one. *)
Lemma C4_counterexample_address_note :
  ip_count (extract address_note) = [(str "10.0.0.1", 1)] /\
  Counter (digit_dot_bounded_addresses address_note) = [(str "1.2.3.4", 1)].
Proof. vm_compute. auto. Qed.

(** C4, amended: the address table counts the addresses found scanning
    left to right, each four dot-separated groups of one to three
    digits with no word character (letter, digit, underscore) next to
    them on either side; the groups are not range-checked, so
    [999.999.999.999] is counted. *)
Theorem C4_address_table :
  forall blob : text,
    ip_count (extract blob) = Counter (addresses blob) /\
    counter_get (str "999.999.999.999") (ip_count (extract (str "999.999.999.999")))
      = Some 1.
Proof.
  intros blob. split.
  - unfold extract, analyze_logs. cbn [ip_count]. rewrite findall_ip. reflexivity.
  - vm_compute. reflexivity.
Qed.

(** C5: no line text is in both lists. *)
Theorem C5_lists_are_disjoint :
  forall blob line : text,
    ~ (In line (fst (classify blob)) /\ In line (snd (classify blob))).
Proof.
  intros blob line. rewrite classify_eq. cbn [fst snd]. intros [E W].
  apply filter_In in E, W. destruct E as [_ E], W as [_ W].
  apply level_error_not_warning in E. congruence.
Qed.

(** C6, as stated, fails: [remark_line] holds [level=warning] with no
    failure word after it, and yet is filed as an error, because an
    earlier marker of the line matched. *)
Lemma C6_counterexample_remark_line :
  remark_line =
    (str "level=error msg=" ++ quoted "sync failed" ++ str " note=" ++ dq :: str "was ")
    ++ str "level=warning" ++ [dq] /\
  contains (str "failed") [dq] = false /\
  contains (str "Failed") [dq] = false /\
  classify remark_line = ([remark_line], []).
Proof. vm_compute. auto. Qed.

(** C6, amended: a line whose first [level=] marker is [level=warning]
    and which has neither [failed] nor [Failed] after it is left out of
    both lists. *)
Theorem C6_warning_without_failure_left_out :
  forall (raw pre tail : text) (acc : buckets),
    strip raw = pre ++ str "level=warning" ++ tail ->
    contains (str "level=") (pre ++ str "level") = false ->
    contains (str "failed") tail = false ->
    contains (str "Failed") tail = false ->
    classify_line acc raw = acc.
Proof.
  intros raw pre tail [errors warnings] R First F1 F2.
  rewrite classify_line_eq. unfold kept, level_is, level_type. rewrite R.
  change (pre ++ str "level=warning" ++ tail)
    with (pre ++ str "level=" ++ (str "warning" ++ tail)).
  rewrite (no_failure_no_match pre (str "warning" ++ tail) First); [| exact F1 | exact F2].
  rewrite andb_false_r, !app_nil_r. reflexivity.
Qed.

(** The archiving warning of the specification is left out of both
    lists. *)
Lemma C6_witness_archiving_line : classify archiving_line = ([], []).
Proof.
  exact (C6_warning_without_failure_left_out
           archiving_line
           (str "time=" ++ quoted "2020-03-18T14:40:40Z" ++ str " ")
           (str " msg=" ++ quoted "Archiving data source: old_records_2019")
           ([], []) eq_refl eq_refl eq_refl eq_refl).
Defined.

(** C7, as stated, fails: in the three lines as quoted no verb follows
    a double quote, so the verb table is empty. *)
Lemma C7_counterexample_bare_requests :
  ~ (request_count (extract bare_requests) = [(str "GET", 2); (str "POST", 1)] /\
     status_count (extract bare_requests) = [(str "200", 2); (str "404", 1)]).
Proof. intros [H _]. vm_compute in H. discriminate H. Qed.

(** C7, amended: with the quote that opens each request in place, the
    three lines give the verb counts GET 2, POST 1 and the status counts
    200 twice, 404 once. *)
Theorem C7_quoted_requests_counts :
  request_count (extract quoted_requests) = [(str "GET", 2); (str "POST", 1)] /\
  status_count (extract quoted_requests) = [(str "200", 2); (str "404", 1)].
Proof. vm_compute. auto. Qed.

(** C8: on the empty blob the extractor returns three empty tables and
    the classifier two empty lists; so does the extractor on the lone
    line feed an empty text widget hands over. *)
Theorem C8_empty_input :
  extract [] = LogCounts [] [] [] /\
  classify [] = ([], []) /\
  extract (log_text_get []) = LogCounts [] [] [].
Proof. vm_compute. auto. Qed.

(** C9: the count of a verb is the number of positions at which a
    double quote and the verb's letters begin, whatever comes after
    them. *)
Theorem C9_quote_and_verb_letters_count :
  forall blob v : text,
    In v verbs ->
    counter_get v (request_count (extract blob)) = entry (count_at (dq :: v) blob).
Proof. intros blob v V. apply request_count_entry, V. Qed.

(** A quote before GETAWAY counts as one GET. *)
Lemma C9_witness_getaway :
  counter_get (str "GET") (request_count (extract (dq :: str "GETAWAY"))) = Some 1.
Proof.
  exact (C9_quote_and_verb_letters_count
           (dq :: str "GETAWAY") (str "GET") (or_introl eq_refl)).
Defined.

(** C10: each list holds, in input order and once per occurrence, the
    lines of its level among the trimmed non-blank lines of the blob.
    The lines are the pieces between line breaks with the whitespace
    at both ends cut off; a line is of a level when its first [level=]
    that filler characters and then [failed] or [Failed] follow is
    followed at once by level words, the last of them that level.  For
    [log1.txt] these are the third line, and the fifth, sixth, seventh
    and ninth. *)
Theorem C10_lists_are_ordered_subsequences :
  forall blob : text,
    classify blob =
      (filter (reads_as (str "error")) (text_lines blob),
       filter (reads_as (str "warning")) (text_lines blob)) /\
    classify (join_lines log1_lines) =
      ([nth 2 log1_lines []],
       [nth 4 log1_lines []; nth 5 log1_lines []; nth 6 log1_lines [];
        nth 8 log1_lines []]).
Proof.
  intros blob. split; [|vm_compute; reflexivity].
  rewrite classify_eq, trimmed_lines_read. f_equal; apply filter_ext, level_is_reads.
Qed.

(** * Properties of the rest of the notebooks *)

(** The output the notebook records for its run on [log1.txt]. *)
Example log1_output :
  stdout (run_parser log1_txt error_output_file warning_output_file log1_world) =
    [ str "Processing log1.txt...";
      str "Saved 1 messages to error_messages_from_log1.txt";
      str "Saved 4 messages to warning_messages_from_log1.txt";
      LF :: str "--- Script Execution Complete ---" ].
Proof. vm_compute. reflexivity. Qed.

(** X1: a list that [save_messages] has written parses back to itself:
    parsing the saved errors gives those errors and no warning, parsing
    the saved warnings gives those warnings and no error. *)
Theorem X1_saved_lists_parse_back :
  forall (blob out : text) (w : world),
    fst (parse_log_file_at out (save_messages (fst (classify blob)) out w))
      = (fst (classify blob), []) /\
    fst (parse_log_file_at out (save_messages (snd (classify blob)) out w))
      = ([], snd (classify blob)).
Proof.
  intros blob out w. destruct (classify_saved blob) as [E W].
  unfold parse_log_file_at, save_messages.
  rewrite !fs_print, !fs_write_same. cbn [fst]. split; [exact E | exact W].
Qed.

(** X2: every line in either list is not empty, has nothing left to
    trim and holds no line break. *)
Theorem X2_filed_lines_are_clean :
  forall blob : text,
    Forall clean_line (fst (classify blob) ++ snd (classify blob)).
Proof.
  intros blob. rewrite classify_eq. cbn [fst snd]. apply Forall_forall.
  intros line H. apply in_app_or in H.
  assert (T : In line (trimmed_lines blob)).
  { destruct H as [H | H]; apply filter_In in H; apply H. }
  destruct (trimmed_lines_shape blob line T) as (N & Tr & B).
  repeat split; auto. apply strip_of_trimmed, Tr.
Qed.

(** X3: a line is filed only if it holds [level=] and, after filler
    characters only, [failed] or [Failed]. *)
Theorem X3_filed_lines_hold_marker_and_failure :
  forall blob : text,
    Forall failure_shape (fst (classify blob) ++ snd (classify blob)).
Proof.
  intros blob. rewrite classify_eq. cbn [fst snd]. apply Forall_forall.
  intros line H. apply in_app_or in H.
  assert (L : exists lv, level_type line = Some lv).
  { destruct H as [H | H]; apply filter_In in H; destruct H as [_ H];
      unfold level_is in H; destruct (level_type line) as [v|];
      try discriminate; exists v; reflexivity. }
  destruct L as [lv L]. exact (level_type_shape line lv L).
Qed.

(** X4: a line that holds neither [level=error] nor [level=warning] is
    left out of both lists, whatever else it says. *)
Theorem X4_other_levels_are_left_out :
  forall (raw : text) (acc : buckets),
    contains (str "level=error") (strip raw) = false ->
    contains (str "level=warning") (strip raw) = false ->
    classify_line acc raw = acc.
Proof.
  intros raw [errors warnings] E W.
  rewrite classify_line_eq. unfold kept, level_is.
  rewrite (no_level_word_no_level _ E W), andb_false_r, !app_nil_r. reflexivity.
Qed.

(** An information line that reports a failed login is filed nowhere. *)
Lemma X4_witness_login_line : classify_line ([], []) (login_line ++ [LF]) = ([], []).
Proof.
  exact (X4_other_levels_are_left_out (login_line ++ [LF]) ([], []) eq_refl eq_refl).
Defined.

(** X5: when the two output paths neither spell one directory entry
    nor lead to one file, then after the parsing cell has run each
    output file exists exactly when its list is not empty, and then
    holds the list one line each; an output left by an earlier run is
    removed when the list is empty (also when the source file is
    missing); every path apart from both outputs shows what it showed
    before. *)
Theorem X5_run_parser_output_files :
  forall (source eo wo : text) (w : world),
    apart w eo wo ->
    fs (run_parser source eo wo w) eo
      = match fst (parse_log_file (fs w source)) with
        | [] => None
        | _ :: _ => Some (unlines (fst (parse_log_file (fs w source))))
        end /\
    fs (run_parser source eo wo w) wo
      = match snd (parse_log_file (fs w source)) with
        | [] => None
        | _ :: _ => Some (unlines (snd (parse_log_file (fs w source))))
        end /\
    forall p, apart w p eo -> apart w p wo ->
      fs (run_parser source eo wo w) p = fs w p.
Proof. intros source eo wo w N. apply run_parser_fs, N. Qed.

(** With no source file at hand, the error file of the earlier run is
    removed. *)
Lemma X5_witness_missing_source :
  fs log1_world error_output_file = Some (str "left over") /\
  fs (run_parser (str "log2.txt") error_output_file warning_output_file log1_world)
     error_output_file = None.
Proof.
  split; [reflexivity|].
  apply (X5_run_parser_output_files
           (str "log2.txt") error_output_file warning_output_file log1_world).
  split; [apply text_eqb_neq; reflexivity | intros i _; discriminate].
Defined.

(** X6: each of the three tables lists every value once, with a count
    of at least one, and its counts add up to the number of matches of
    its pattern. *)
Theorem X6_tables_are_well_formed :
  forall blob : text,
    well_formed_for (findall ip_pattern blob) (ip_count (extract blob)) /\
    well_formed_for (findall request_pattern blob) (request_count (extract blob)) /\
    well_formed_for (findall status_pattern blob) (status_count (extract blob)).
Proof.
  intros blob. unfold extract, analyze_logs, well_formed_for.
  cbn [ip_count request_count status_count].
  repeat split; apply Counter_invariants.
Qed.

(** X7: the keys of the address table are four dot-separated groups of
    one to three digits, the keys of the verb table are among GET,
    POST, PUT and DELETE, and the keys of the status table are three
    digits. *)
Theorem X7_table_keys_have_the_matched_shape :
  forall blob : text,
    Forall quad_shape (keys (ip_count (extract blob))) /\
    Forall (fun v => In v verbs) (keys (request_count (extract blob))) /\
    Forall status_shape (keys (status_count (extract blob))).
Proof. exact table_key_shapes. Qed.

(** X8: the status table counts the codes found scanning left to
    right: a whitespace character, three digits, a whitespace
    character, the scan resuming after that last character. *)
Theorem X8_status_table_by_scan :
  forall blob : text, status_count (extract blob) = Counter (status_scan blob 0).
Proof.
  intros blob. unfold extract, analyze_logs. cbn [status_count].
  rewrite findall_status. reflexivity.
Qed.



(** X10: the report [analyze_logs] writes has five fixed lines and one
    line per distinct address, verb and status code, whatever the log
    text and whatever the report held before; the log text is left as
    it was. *)
Theorem X10_report_has_one_line_per_value :
  forall g : gui,
    line_feeds (result_text (analyze_logs_click g)) =
      5 + length (ip_count (extract (log_text_get (log_text g))))
        + length (request_count (extract (log_text_get (log_text g))))
        + length (status_count (extract (log_text_get (log_text g)))) /\
    log_text (analyze_logs_click g) = log_text g.
Proof. intros g. split; [apply report_lines | reflexivity]. Qed.

(** X11: messages without line breaks, saved by [save_messages], are
    read back from the file one per line, as many as were saved. *)
Theorem X11_saved_file_reads_back :
  forall (messages : list text) (out : text) (w : world),
    Forall (fun m => forallb no_break m = true) messages ->
    option_map file_lines (fs (save_messages messages out w) out)
      = Some (map (fun m => m ++ [LF]) messages).
Proof.
  intros messages out w F. unfold save_messages.
  rewrite fs_print, fs_write_same. cbn [option_map]. rewrite (file_lines_unlines _ F).
  reflexivity.
Qed.

(** Two short messages come back as two lines. *)
Lemma X11_witness_two_messages :
  option_map file_lines
    (fs (save_messages [str "disk failed"; str "net failed"] error_output_file log1_world)
        error_output_file)
    = Some [str "disk failed" ++ [LF]; str "net failed" ++ [LF]].
Proof.
  apply (X11_saved_file_reads_back
           [str "disk failed"; str "net failed"] error_output_file log1_world).
  repeat constructor.
Defined.

(** The digits [f"{count}"] writes for a count are decimal digits that
    read back as that count. *)
Lemma decimal_round_trip (n : nat) :
  forallb is_digit (decimal n) = true /\ digits_value (decimal n) = n.
Proof. split; [apply decimal_digits | apply decimal_value]. Qed.

Lemma universal_newlines_crlf s :
  no_cr s = true ->
  universal_newlines (crlf s) = s /\ universal_newlines s = s.
Proof.
  unfold no_cr. induction s as [|c s IH]; intros N; [split; reflexivity|].
  cbn [forallb] in N. apply andb_true_iff in N. destruct N as [Nc N].
  apply negb_true_iff in Nc. destruct (IH N) as [I1 I2].
  cbn [crlf universal_newlines]. rewrite Nc, I2.
  split; [|reflexivity].
  destruct (Ascii.eqb c LF) eqn:E.
  - apply Ascii.eqb_eq in E. subst c. cbn [universal_newlines].
    rewrite Ascii.eqb_refl. cbn. rewrite I1. reflexivity.
  - cbn [universal_newlines]. rewrite Nc, I1. reflexivity.
Qed.

(** X12: a log saved with carriage return, line feed at its line ends
    is handled as the same log with line feeds: [open_log_file] puts
    the same text in the window and [parse_log_file] returns the same
    lists. *)
Theorem X12_line_end_convention_is_immaterial :
  forall (s : text) (g : gui),
    no_cr s = true ->
    open_log_file (Some (crlf s)) g = open_log_file (Some s) g /\
    parse_log_file (Some (crlf s)) = parse_log_file (Some s).
Proof.
  intros s g N. destruct (universal_newlines_crlf s N) as [C I].
  unfold open_log_file, parse_log_file, file_lines. rewrite C, I. auto.
Qed.

(** The error line of [log1.txt] and a blank line, with either line
    end. *)
Lemma X12_witness_database_line :
  parse_log_file (Some (database_line ++ [CR; LF; CR; LF]))
    = parse_log_file (Some (database_line ++ [LF; LF])).
Proof.
  exact (proj2 (X12_line_end_convention_is_immaterial
                  (database_line ++ [LF; LF]) (Gui [] []) eq_refl)).
Defined.
